(** * Portfolio-Backend: the contact-form route [routes/email.js]

    A shallow embedding of the [/send-email] handler of the Gmail/SMTP
    variant of [routes/email.js] (the first module of the file) together
    with its helpers [escapeHtml], [validateEmail], [sanitizeInput] and
    [checkRateLimit], followed by the properties stated about them.

    Conventions of the embedding:
    - a JavaScript string is the list of its UTF-16 code units;
    - a JavaScript value is a small tagged union ([JsValue]);
    - [Date.now()] readings are integers (milliseconds);
    - the module-level [rateLimitMap] is a finite map threaded through the
      functions that read or write it;
    - [console.log] / [console.error] calls have no effect on the state or
      on the response and are left out. *)

From Stdlib Require Import ZArith NArith List Ascii String Lia Bool.
From stdpp Require Import base decidable option list gmap.

Local Open Scope N_scope.

(** ** JavaScript strings *)

Definition code_unit : Type := N.
Abbreviation jsstring := (list N) (only parsing).

(** A source literal made of Basic Latin characters, as code units. *)
Fixpoint u16 (s : string) : jsstring :=
  match s with
  | EmptyString => []
  | String c rest => N_of_ascii c :: u16 rest
  end.

(** The quotation mark, which the source writes inside its literals. *)
Definition dquote : jsstring := [34].

(** ECMAScript [WhiteSpace] and [LineTerminator] code points: the set that
    [String.prototype.trim] strips and that [\s] matches. *)
Definition isWhiteSpace (c : code_unit) : bool :=
  ((9 <=? c) && (c <=? 13)) || (c =? 32) || (c =? 160) || (c =? 5760)
  || ((8192 <=? c) && (c <=? 8202)) || (c =? 8232) || (c =? 8233)
  || (c =? 8239) || (c =? 8287) || (c =? 12288) || (c =? 65279).

Fixpoint trimStart (s : jsstring) : jsstring :=
  match s with
  | [] => []
  | c :: rest => if isWhiteSpace c then trimStart rest else s
  end.

Definition trimEnd (s : jsstring) : jsstring :=
  rev (trimStart (rev s)).

(** [s.trim()] *)
Definition trim (s : jsstring) : jsstring := trimEnd (trimStart s).

(** [s.substring(0, n)] for a non-negative integer [n]. *)
Definition substring0 (n : nat) (s : jsstring) : jsstring := take n s.

(** [s.length] *)
Definition jslength (s : jsstring) : nat := length s.

(** A string is falsy exactly when it is empty. *)
Definition str_falsy (s : jsstring) : bool :=
  match s with [] => true | _ => false end.

(** Replacement of every code unit of a class by the result of a callback:
    [s.replace(/[...]/g, f)] for a class of single code units. *)
Definition replace_class (cls : code_unit -> bool)
    (f : code_unit -> jsstring) (s : jsstring) : jsstring :=
  flat_map (fun c => if cls c then f c else [c]) s.

(** [isInfix p s]: [s.includes(p)]. *)
Fixpoint isPrefix (p s : jsstring) : bool :=
  match p, s with
  | [], _ => true
  | _ :: _, [] => false
  | a :: p', b :: s' => (a =? b) && isPrefix p' s'
  end.

Fixpoint isInfix (p s : jsstring) : bool :=
  isPrefix p s || match s with [] => false | _ :: s' => isInfix p s' end.

(** ** JavaScript values *)

#[local] Unset Elimination Schemes.

Inductive JsValue : Type :=
| JUndefined
| JNull
| JBool (b : bool)
| JNum (n : Z)
| JStr (s : jsstring)
| JArr (items : list JsValue)
| JObj (props : list (jsstring * JsValue)).

#[local] Set Elimination Schemes.

Inductive JsType : Type :=
| TUndefined | TObject | TBoolean | TNumber | TString.

#[global] Instance JsType_eq_dec : EqDecision JsType.
Proof. solve_decision. Defined.

Definition typeof (v : JsValue) : JsType :=
  match v with
  | JUndefined => TUndefined
  | JNull => TObject
  | JBool _ => TBoolean
  | JNum _ => TNumber
  | JStr _ => TString
  | JArr _ => TObject
  | JObj _ => TObject
  end.

(** [!v] *)
Definition falsy (v : JsValue) : bool :=
  match v with
  | JUndefined | JNull => true
  | JBool b => negb b
  | JNum n => (n =? 0)%Z
  | JStr s => str_falsy s
  | JArr _ | JObj _ => false
  end.

Fixpoint assoc (k : jsstring) (props : list (jsstring * JsValue)) : JsValue :=
  match props with
  | [] => JUndefined
  | (k', v) :: rest => if bool_decide (k' = k) then v else assoc k rest
  end.

(** [v.k] for a body value that passed the [typeof v === 'object'] test:
    an own property of an object, [undefined] otherwise. *)
Definition getProp (v : JsValue) (k : jsstring) : JsValue :=
  match v with
  | JObj props => assoc k props
  | _ => JUndefined
  end.

(** ** [sanitizeInput] *)

Definition MAX_INPUT : nat := 5000.

Definition sanitizeInput (input : JsValue) : jsstring :=
  match input with
  | JStr s => substring0 MAX_INPUT (trim s)
  | _ => []
  end.

(** ** [escapeHtml] *)

(** The object literal [map]: its properties in source order. *)
Definition escape_map : list (jsstring * jsstring) :=
  [ (u16 "&", u16 "&amp;");
    (u16 "<", u16 "&lt;");
    (u16 ">", u16 "&gt;");
    (dquote, u16 "&quot;");
    (u16 "'", u16 "&#039;") ].

(** [map[m]], converted to a string as [replace] does with the value the
    callback returns. *)
Fixpoint map_get (m : list (jsstring * jsstring)) (k : jsstring) : jsstring :=
  match m with
  | [] => u16 "undefined"
  | (k', v) :: rest => if bool_decide (k' = k) then v else map_get rest k
  end.

(** The character class of the pattern: ampersand, the two angle brackets,
    the quotation mark and the apostrophe. *)
Definition escape_class (c : code_unit) : bool :=
  existsb (N.eqb c) (u16 "&<>" ++ dquote ++ u16 "'").

Definition escapeHtml (text : jsstring) : jsstring :=
  replace_class escape_class (fun m => map_get escape_map [m]) text.

(** [.replace(/\n/g, '<br>')] *)
Definition nl2br (text : jsstring) : jsstring :=
  replace_class (N.eqb 10) (fun _ => u16 "<br>") text.

(** ** Regular expressions

    The fragment of the pattern language that [emailRegex] is written in,
    with the two forms ([RNone], [RAlt]) that derivatives add. A pattern
    written between [^] and [$] (without the [m] flag) is tested against
    the whole input. *)

Inductive ClassItem : Type :=
| CChar (c : code_unit)   (* a literal character *)
| CSpace.                 (* [\s] *)

Inductive Regex : Type :=
| RNone
| REps
| RLit (c : code_unit)
| RSet (negated : bool) (items : list ClassItem)
| RCat (r1 r2 : Regex)
| RAlt (r1 r2 : Regex)
| RPlus (r : Regex).

Definition item_matches (c : code_unit) (i : ClassItem) : bool :=
  match i with
  | CChar d => c =? d
  | CSpace => isWhiteSpace c
  end.

Definition set_matches (negated : bool) (items : list ClassItem)
    (c : code_unit) : bool :=
  xorb negated (existsb (item_matches c) items).

Fixpoint nullable (r : Regex) : bool :=
  match r with
  | RNone => false
  | REps => true
  | RLit _ => false
  | RSet _ _ => false
  | RCat r1 r2 => nullable r1 && nullable r2
  | RAlt r1 r2 => nullable r1 || nullable r2
  | RPlus r1 => nullable r1
  end.

Fixpoint deriv (c : code_unit) (r : Regex) : Regex :=
  match r with
  | RNone => RNone
  | REps => RNone
  | RLit d => if c =? d then REps else RNone
  | RSet neg items => if set_matches neg items c then REps else RNone
  | RCat r1 r2 =>
      if nullable r1
      then RAlt (RCat (deriv c r1) r2) (deriv c r2)
      else RCat (deriv c r1) r2
  | RAlt r1 r2 => RAlt (deriv c r1) (deriv c r2)
  | RPlus r1 => RCat (deriv c r1) (RAlt REps (RPlus r1))
  end.

(** [/^r$/.test(s)] *)
Fixpoint test (r : Regex) (s : jsstring) : bool :=
  match s with
  | [] => nullable r
  | c :: rest => test (deriv c r) rest
  end.

(** [[^\s@]] *)
Definition notSpaceAt : Regex := RSet true [CSpace; CChar 64].

(** [/^[^\s@]+@[^\s@]+\.[^\s@]+$/] *)
Definition emailRegex : Regex :=
  RCat (RPlus notSpaceAt)
    (RCat (RLit 64)
       (RCat (RPlus notSpaceAt)
          (RCat (RLit 46) (RPlus notSpaceAt)))).

(** ** [String.prototype.toLowerCase]

    The built-in follows the Unicode case tables, which are not part of
    the program. It is taken as an interface; what is used of it is its
    action on Basic Latin text, where it maps [A]-[Z] to [a]-[z] and
    leaves every other character as it is. *)

Definition lower_basic_latin (c : code_unit) : code_unit :=
  if (65 <=? c) && (c <=? 90) then c + 32 else c.

Definition basic_latin (s : jsstring) : Prop := Forall (fun c => c < 128) s.

Class CaseMapping : Type := {
  toLowerCase : jsstring -> jsstring;
  toLowerCase_basic_latin :
    forall s, basic_latin s -> toLowerCase s = map lower_basic_latin s
}.

(** The case mapping that acts on Basic Latin only. *)
#[local] Program Instance BasicLatinCase : CaseMapping :=
  {| toLowerCase := map lower_basic_latin |}.
Next Obligation. reflexivity. Qed.

(** ** [validateEmail] *)

Definition validateEmail `{CaseMapping} (email : JsValue) : bool :=
  match email with
  | JStr s =>
      if str_falsy s then false
      else
        let trimmedEmail := toLowerCase (trim s) in
        test emailRegex trimmedEmail && (jslength trimmedEmail <=? 254)%nat
  | _ => false
  end.

(** ** The rate limiter

    [rateLimitMap]: client identifier to the timestamps of its recent
    requests. *)

Abbreviation Ledger := (gmap (list N) (list Z)) (only parsing).

(** [checkRateLimit(identifier, maxRequests, windowMs)], with the reading
    [now] of [Date.now()] that the call takes. *)
Definition checkRateLimit (now : Z) (identifier : jsstring)
    (maxRequests windowMs : Z) (rateLimitMap : Ledger) : bool * Ledger :=
  let rateLimitMap1 :=
    match rateLimitMap !! identifier with
    | None => <[identifier := []]> rateLimitMap
    | Some _ => rateLimitMap
    end in
  let requests := default [] (rateLimitMap1 !! identifier) in
  let recentRequests := filter (fun time => (now - time < windowMs)%Z) requests in
  if (maxRequests <=? Z.of_nat (length recentRequests))%Z
  then (false, rateLimitMap1)
  else (true, <[identifier := recentRequests ++ [now]]> rateLimitMap1).

(** The periodic clean-up that [setInterval] runs every 300000 ms. *)
Definition sweep (now : Z) (rateLimitMap : Ledger) : Ledger :=
  omap (fun times =>
          let recent := filter (fun time => (now - time < 3600000)%Z) times in
          match recent with [] => None | _ => Some recent end)
       rateLimitMap.

(** A sequence of calls for one identifier, at the given clock readings. *)
Fixpoint allow_calls (identifier : jsstring) (maxRequests windowMs : Z)
    (clock : list Z) (rateLimitMap : Ledger) : list bool * Ledger :=
  match clock with
  | [] => ([], rateLimitMap)
  | now :: later =>
      let '(ok, m1) := checkRateLimit now identifier maxRequests windowMs rateLimitMap in
      let '(oks, m2) := allow_calls identifier maxRequests windowMs later m1 in
      (ok :: oks, m2)
  end.

(** ** The outbound message *)

(** The [html] template literal of [mailOptions]. *)
Definition htmlTemplate (escapedName escapedEmail escapedMessage sentOn : jsstring)
    : jsstring :=
  u16 "
        <div style="
  ++ dquote
  ++ u16 "font-family: Arial, sans-serif; max-width: 600px; margin: 0 auto;"
  ++ dquote
  ++ u16 ">
          <h2 style="
  ++ dquote
  ++ u16 "color: #333; border-bottom: 2px solid #0066cc; padding-bottom: 10px;"
  ++ dquote
  ++ u16 ">
            New Message from Portfolio Contact Form
          </h2>
          <div style="
  ++ dquote
  ++ u16 "margin: 20px 0;"
  ++ dquote
  ++ u16 ">
            <p style="
  ++ dquote
  ++ u16 "margin: 10px 0;"
  ++ dquote
  ++ u16 ">
              <strong style="
  ++ dquote
  ++ u16 "color: #333;"
  ++ dquote
  ++ u16 ">Name:</strong> 
              <span style="
  ++ dquote
  ++ u16 "color: #666;"
  ++ dquote
  ++ u16 ">"
  ++ escapedName
  ++ u16 "</span>
            </p>
            <p style="
  ++ dquote
  ++ u16 "margin: 10px 0;"
  ++ dquote
  ++ u16 ">
              <strong style="
  ++ dquote
  ++ u16 "color: #333;"
  ++ dquote
  ++ u16 ">Email:</strong> 
              <span style="
  ++ dquote
  ++ u16 "color: #666;"
  ++ dquote
  ++ u16 ">"
  ++ escapedEmail
  ++ u16 "</span>
            </p>
            <p style="
  ++ dquote
  ++ u16 "margin: 10px 0;"
  ++ dquote
  ++ u16 ">
              <strong style="
  ++ dquote
  ++ u16 "color: #333;"
  ++ dquote
  ++ u16 ">Message:</strong>
            </p>
            <div style="
  ++ dquote
  ++ u16 "background-color: #f5f5f5; padding: 15px; border-left: 4px solid #0066cc; margin: 10px 0; color: #333;"
  ++ dquote
  ++ u16 ">
              "
  ++ escapedMessage
  ++ u16 "
            </div>
          </div>
          <hr style="
  ++ dquote
  ++ u16 "border: none; border-top: 1px solid #ddd; margin: 20px 0;"
  ++ dquote
  ++ u16 ">
          <p style="
  ++ dquote
  ++ u16 "color: #999; font-size: 12px; margin-top: 20px;"
  ++ dquote
  ++ u16 ">
            This message was sent from your portfolio contact form. 
            <br>Sent on "
  ++ sentOn
  ++ u16 "
          </p>
        </div>
      ".

(** The [text] template literal of [mailOptions]. *)
Definition textTemplate (name email message sentOn : jsstring) : jsstring :=
  u16 "
Name: "
  ++ name
  ++ u16 "
Email: "
  ++ email
  ++ u16 "

Message:
"
  ++ message
  ++ u16 "

---
This message was sent from your portfolio contact form.
Sent on "
  ++ sentOn
  ++ u16 "
      ".

Record MailOptions : Type := {
  mail_from : jsstring;
  mail_to : jsstring;
  mail_replyTo : jsstring;
  mail_subject : jsstring;
  mail_html : jsstring;
  mail_text : jsstring
}.

(** ** Errors, promises and the race against the timer *)

(** An [Error] object: its [message] and its [code] property, which plain
    [new Error(msg)] does not have. *)
Record JsError : Type := {
  err_message : jsstring;
  err_code : option jsstring
}.

Inductive Outcome : Type :=
| Fulfilled
| Rejected (e : JsError).

(** A promise, by the time at which it settles (milliseconds after the
    race starts; [None] when it never settles) and how. *)
Record Promise : Type := {
  settles_at : option Z;
  outcome : Outcome
}.

(** [new Promise((_, reject) => setTimeout(() => reject(e), ms))] *)
Definition rejectAfter (ms : Z) (e : JsError) : Promise :=
  {| settles_at := Some ms; outcome := Rejected e |}.

(** [Promise.race([p, q])]: settles as the first of the two to settle; of
    two that settle at the same instant, the one listed first. *)
Definition promise_race (p q : Promise) : Promise :=
  match settles_at p, settles_at q with
  | Some a, Some b => if (a <=? b)%Z then p else q
  | Some _, None => p
  | None, _ => q
  end.

Definition SEND_TIMEOUT_MS : Z := 30000.

Definition timeoutError : JsError :=
  {| err_message := u16 "Email send timeout"; err_code := None |}.

(** ** Process state and environment *)

Record ProcessEnv : Type := {
  GMAIL_EMAIL : option jsstring;
  GMAIL_PASSWORD : option jsstring;
  NODE_ENV : option jsstring
}.

(** The transporter that [nodemailer.createTransport] builds: the
    credentials it was given (its other options are constants). *)
Record Transporter : Type := {
  auth_user : jsstring;
  auth_pass : jsstring
}.

(** The module-level variables. *)
Record State : Type := {
  rateLimitMap : gmap (list N) (list Z);
  transporter : option Transporter
}.

(** [!process.env.X] *)
Definition env_missing (x : option jsstring) : bool :=
  match x with
  | None => true
  | Some s => str_falsy s
  end.

Definition env_get (x : option jsstring) : jsstring := default [] x.

Definition getTransporter (env : ProcessEnv) (st : State)
    : (JsError + Transporter) * State :=
  match transporter st with
  | Some t => (inr t, st)
  | None =>
      if env_missing (GMAIL_EMAIL env) || env_missing (GMAIL_PASSWORD env)
      then (inl {| err_message :=
                     u16 "Missing Gmail credentials in environment variables";
                   err_code := None |}, st)
      else
        let t := {| auth_user := env_get (GMAIL_EMAIL env);
                    auth_pass := env_get (GMAIL_PASSWORD env) |} in
        (inr t, {| rateLimitMap := rateLimitMap st; transporter := Some t |})
  end.

(** ** Requests and responses *)

Record Request : Type := {
  req_ip : option jsstring;
  req_remoteAddress : option jsstring;
  req_body : JsValue
}.

(** What the world contributes to one run of the handler: the clock
    reading taken by the rate limiter, the two renderings of
    [new Date().toLocaleString()], and the behaviour of the promise that
    [sendMail] returns. *)
Record World : Type := {
  now : Z;
  sentOnHtml : jsstring;
  sentOnText : jsstring;
  sendMail : Promise
}.

(** [res.status(status).json({ success, message, error })]; [error] is
    absent unless the spread adds it. *)
Record Response : Type := {
  status : Z;
  success : bool;
  message : jsstring;
  error : option jsstring
}.

Definition respond (st : Z) (ok : bool) (msg : string) : Response :=
  {| status := st; success := ok; message := u16 msg; error := None |}.

(** [a || b] on strings that may be undefined. *)
Definition or_else (a : option jsstring) (b : jsstring) : jsstring :=
  match a with
  | Some (c :: s) => c :: s
  | _ => b
  end.

(** The three fields as the handler holds them after
    [sanitizeInput(...).trim()] (and [.toLowerCase()] for the email). *)
Record Fields : Type := {
  f_name : jsstring;
  f_email : jsstring;
  f_message : jsstring
}.

Definition extract `{CaseMapping} (body : JsValue) : Fields :=
  {| f_name := trim (sanitizeInput (getProp body (u16 "name")));
     f_email := toLowerCase (trim (sanitizeInput (getProp body (u16 "email"))));
     f_message := trim (sanitizeInput (getProp body (u16 "message"))) |}.

(** The sequence of validation tests of the handler: the message of the
    first [return res.status(400)] taken, if any. *)
Definition validate `{CaseMapping} (f : Fields) : option string :=
  if str_falsy (f_name f) then Some "Name is required"%string
  else if str_falsy (f_email f) then Some "Email is required"%string
  else if (jslength (f_name f) <? 2)%nat
    then Some "Name must be at least 2 characters long"%string
  else if (100 <? jslength (f_name f))%nat
    then Some "Name must be less than 100 characters"%string
  else if negb (validateEmail (JStr (f_email f)))
    then Some "Please provide a valid email address"%string
  else if str_falsy (f_message f) then Some "Message is required"%string
  else if (jslength (f_message f) <? 10)%nat
    then Some "Message must be at least 10 characters long"%string
  else if (5000 <? jslength (f_message f))%nat
    then Some "Message must be less than 5000 characters"%string
  else None.

Definition buildMail (env : ProcessEnv) (w : World) (f : Fields) : MailOptions :=
  let escapedName := escapeHtml (f_name f) in
  let escapedEmail := escapeHtml (f_email f) in
  let escapedMessage := nl2br (escapeHtml (f_message f)) in
  {| mail_from := env_get (GMAIL_EMAIL env);
     mail_to := env_get (GMAIL_EMAIL env);
     mail_replyTo := f_email f;
     mail_subject := u16 "New Portfolio Contact from " ++ escapedName;
     mail_html := htmlTemplate escapedName escapedEmail escapedMessage (sentOnHtml w);
     mail_text := textTemplate (f_name f) (f_email f) (f_message f) (sentOnText w) |}.

(** The [catch] block. *)
Definition handleError (env : ProcessEnv) (e : JsError) : Response :=
  let isDev := bool_decide (NODE_ENV env = Some (u16 "development")) in
  let errorDetails := if isDev then Some (err_message e) else None in
  if bool_decide (err_code e = Some (u16 "EAUTH")) then
    {| status := 500; success := false;
       message := u16 "Authentication error. Please check Gmail credentials.";
       error := if isDev then Some (err_message e) else None |}
  else if bool_decide (err_code e = Some (u16 "ECONNREFUSED"))
          || bool_decide (err_code e = Some (u16 "ETIMEDOUT")) then
    {| status := 503; success := false;
       message := u16 "Service temporarily unavailable. Please try again later.";
       error := if isDev then Some (err_message e) else None |}
  else
    {| status := 500; success := false;
       message := u16 "Failed to send email. Please try again later.";
       error := if isDev then errorDetails else None |}.

(** What one run of the handler leaves behind: the response, the module
    state, and the message handed to [sendMail] when the run got there. *)
Record Result : Type := {
  response : Response;
  final : State;
  dispatched : option MailOptions
}.

Definition withLedger (st : State) (m : gmap (list N) (list Z)) : State :=
  {| rateLimitMap := m; transporter := transporter st |}.

(** [req.ip || req.connection.remoteAddress || 'unknown'] *)
Definition clientIP (req : Request) : jsstring :=
  or_else (req_ip req) (or_else (req_remoteAddress req) (u16 "unknown")).

(** [router.post('/send-email', async (req, res) => ...)] *)
Definition handler `{CaseMapping} (env : ProcessEnv) (req : Request)
    (w : World) (st : State) : Result :=
  let clientIP := clientIP req in
  if falsy (req_body req) || negb (bool_decide (typeof (req_body req) = TObject))
  then {| response := respond 400 false "Request body must be valid JSON";
          final := st; dispatched := None |}
  else
    let f := extract (req_body req) in
    match validate f with
    | Some reason =>
        {| response := respond 400 false reason; final := st; dispatched := None |}
    | None =>
        let '(allowed, ledger) :=
          checkRateLimit (now w) clientIP 5 3600000 (rateLimitMap st) in
        let st1 := withLedger st ledger in
        if negb allowed
        then {| response := respond 429 false "Too many requests. Please try again later.";
                final := st1; dispatched := None |}
        else if env_missing (GMAIL_EMAIL env) || env_missing (GMAIL_PASSWORD env)
        then {| response :=
                  respond 500 false "Server configuration error. Please try again later.";
                final := st1; dispatched := None |}
        else
          match getTransporter env st1 with
          | (inl e, st2) =>
              {| response := handleError env e; final := st2; dispatched := None |}
          | (inr _, st2) =>
              let mailOptions := buildMail env w f in
              let raced :=
                promise_race (sendMail w) (rejectAfter SEND_TIMEOUT_MS timeoutError) in
              match outcome raced with
              | Fulfilled =>
                  {| response :=
                       respond 200 true
                         "Email sent successfully! I will get back to you soon.";
                     final := st2; dispatched := Some mailOptions |}
              | Rejected e =>
                  {| response := handleError env e;
                     final := st2; dispatched := Some mailOptions |}
              end
          end
    end.

(** ** Specification-side notions

    Definitions that follow the wording of the specification, to be
    compared with the functions above. *)


(** The language of a pattern. *)
Inductive Matches : Regex -> jsstring -> Prop :=
| MEps : Matches REps []
| MLit c : Matches (RLit c) [c]
| MSet neg items c :
    set_matches neg items c = true -> Matches (RSet neg items) [c]
| MCat r1 r2 s1 s2 :
    Matches r1 s1 -> Matches r2 s2 -> Matches (RCat r1 r2) (s1 ++ s2)
| MAltL r1 r2 s : Matches r1 s -> Matches (RAlt r1 r2) s
| MAltR r1 r2 s : Matches r2 s -> Matches (RAlt r1 r2) s
| MPlusOne r s : Matches r s -> Matches (RPlus r) s
| MPlusMore r s1 s2 :
    Matches r s1 -> Matches (RPlus r) s2 -> Matches (RPlus r) (s1 ++ s2).

(** A character that is neither whitespace nor the at sign. *)
Definition plain (c : code_unit) : bool :=
  negb (isWhiteSpace c) && negb (c =? 64).

(** One or more plain characters. *)
Definition plain_run (s : jsstring) : Prop :=
  s <> [] /\ Forall (fun c => plain c = true) s.

(** The shape [local@domain.tld]: a plain run, an at sign, a plain run, a
    dot, a plain run. *)
Definition email_shape (s : jsstring) : Prop :=
  exists l d t,
    s = l ++ [64] ++ d ++ [46] ++ t /\ plain_run l /\ plain_run d /\ plain_run t.

(** The HTML entity that stands for a character, or the character itself. *)
Definition entity (c : code_unit) : jsstring :=
  if c =? 38 then u16 "&amp;"
  else if c =? 60 then u16 "&lt;"
  else if c =? 62 then u16 "&gt;"
  else if c =? 34 then u16 "&quot;"
  else if c =? 39 then u16 "&#039;"
  else [c].

Definition html_escaped (s : jsstring) : jsstring := flat_map entity s.

(** Newlines turned into line breaks. *)
Definition with_breaks (s : jsstring) : jsstring :=
  flat_map (fun c => if c =? 10 then u16 "<br>" else [c]) s.

(** Whether a string starts, or ends, with a whitespace character. *)
Definition starts_with_space (s : jsstring) : bool :=
  match s with
  | [] => false
  | c :: _ => isWhiteSpace c
  end.

Definition ends_with_space (s : jsstring) : bool := starts_with_space (rev s).









(** A validation check: the test that fails a submission, and its message. *)
Definition Rule : Type := (Fields -> bool) * string.

Definition first_failing (checks : list Rule) (f : Fields) : option string :=
  snd <$> List.find (fun c => fst c f) checks.

Definition name_presence : list Rule :=
  [ (fun f => str_falsy (f_name f), "Name is required"%string) ].

Definition name_length : list Rule :=
  [ (fun f => (jslength (f_name f) <? 2)%nat,
     "Name must be at least 2 characters long"%string);
    (fun f => (100 <? jslength (f_name f))%nat,
     "Name must be less than 100 characters"%string) ].

Definition email_presence : list Rule :=
  [ (fun f => str_falsy (f_email f), "Email is required"%string) ].

Definition email_format `{CaseMapping} : list Rule :=
  [ (fun f => negb (validateEmail (JStr (f_email f))),
     "Please provide a valid email address"%string) ].

Definition message_presence : list Rule :=
  [ (fun f => str_falsy (f_message f), "Message is required"%string) ].

Definition message_length : list Rule :=
  [ (fun f => (jslength (f_message f) <? 10)%nat,
     "Message must be at least 10 characters long"%string);
    (fun f => (5000 <? jslength (f_message f))%nat,
     "Message must be less than 5000 characters"%string) ].

(** The order of the checks as the specification lists it. *)
Definition stated_order `{CaseMapping} : list Rule :=
  name_presence ++ name_length ++ email_presence ++ email_format
  ++ message_presence ++ message_length.

(** The order of the checks in the handler. *)
Definition handler_order `{CaseMapping} : list Rule :=
  name_presence ++ email_presence ++ name_length ++ email_format
  ++ message_presence ++ message_length.

(** All three fields within their bounds. *)
Definition in_bounds `{CaseMapping} (f : Fields) : Prop :=
  (2 <= jslength (f_name f) <= 100)%nat
  /\ validateEmail (JStr (f_email f)) = true
  /\ (10 <= jslength (f_message f) <= 5000)%nat.

(** All three fields present. *)
Definition present (f : Fields) : Prop :=
  f_name f <> [] /\ f_email f <> [] /\ f_message f <> [].

(** The body of a request is an object, so that its fields are read. *)
Definition body_is_object (req : Request) : Prop :=
  falsy (req_body req) = false /\ typeof (req_body req) = TObject.

(** A request gets through validation and the rate limit. *)
Definition passes_gate `{CaseMapping} (req : Request) (w : World) (st : State)
    : Prop :=
  body_is_object req
  /\ validate (extract (req_body req)) = None
  /\ fst (checkRateLimit (now w) (clientIP req) 5 3600000 (rateLimitMap st)) = true.

(** Both credentials are set in the environment. *)
Definition configured (env : ProcessEnv) : Prop :=
  env_missing (GMAIL_EMAIL env) = false /\ env_missing (GMAIL_PASSWORD env) = false.

(** The promise of [sendMail] has not settled when the timer fires. *)
Definition timer_wins (p : Promise) : Prop :=
  match settles_at p with
  | None => True
  | Some t => (SEND_TIMEOUT_MS < t)%Z
  end.

(** The timestamps held for an identifier, none when it has no entry. *)
Definition timestamps (m : gmap (list N) (list Z)) (id : jsstring) : list Z :=
  default [] (m !! id).

(** The timestamps of an identifier that fall within the window at [now]. *)
Definition recent (now windowMs : Z) (m : gmap (list N) (list Z))
    (id : jsstring) : list Z :=
  filter (fun time => (now - time < windowMs)%Z) (timestamps m id).

(** ** Sample data *)

Definition sample_env : ProcessEnv :=
  {| GMAIL_EMAIL := Some (u16 "owner@gmail.com");
     GMAIL_PASSWORD := Some (u16 "app-password");
     NODE_ENV := None |}.

Definition sample_body (name email message : jsstring) : JsValue :=
  JObj [ (u16 "name", JStr name);
         (u16 "email", JStr email);
         (u16 "message", JStr message) ].

Definition sample_request (name email message : jsstring) : Request :=
  {| req_ip := Some (u16 "203.0.113.7");
     req_remoteAddress := None;
     req_body := sample_body name email message |}.

Definition valid_request : Request :=
  sample_request (u16 "Al") (u16 "al@example.com")
    (u16 "Hello, this is a test message.").

Definition never_settles : Promise :=
  {| settles_at := None; outcome := Fulfilled |}.

Definition sample_world (p : Promise) : World :=
  {| now := 1700000000000;
     sentOnHtml := u16 "11/14/2023, 10:13:20 PM";
     sentOnText := u16 "11/14/2023, 10:13:20 PM";
     sendMail := p |}.

Definition fresh_state : State :=
  {| rateLimitMap := ∅; transporter := None |}.

(** An environment without the password. *)
Definition unconfigured_env : ProcessEnv :=
  {| GMAIL_EMAIL := Some (u16 "owner@gmail.com");
     GMAIL_PASSWORD := None;
     NODE_ENV := None |}.

(** A submission with a one-letter name and no email address. *)
Definition short_name_no_email : Request :=
  sample_request (u16 "A") [] (u16 "Hello, this is a test message.").

(** A submission whose name carries markup. *)
Definition script_request : Request :=
  sample_request (u16 "<script>alert(1)</script>") (u16 "al@example.com")
    (u16 "Hello, this is a test message.").

(** A submission whose message is too short. *)
Definition short_message_request : Request :=
  sample_request (u16 "Al") (u16 "al@example.com") (u16 "short").

(** A send that the server refuses at once. *)
Definition refused : Promise :=
  {| settles_at := Some 12%Z;
     outcome := Rejected {| err_message := u16 "connect ECONNREFUSED";
                            err_code := Some (u16 "ECONNREFUSED") |} |}.

(** A send that succeeds after a second. *)
Definition delivered : Promise :=
  {| settles_at := Some 1000%Z; outcome := Fulfilled |}.

(** A ledger in which one client has used its five requests. *)
Definition full_ledger : gmap (list N) (list Z) :=
  {[ u16 "203.0.113.7" := [10; 20; 30; 40; 50]%Z ]}.

(** 5001 letters: longer than the limit, with no whitespace. *)
Definition letters_5001 : jsstring := repeat 97 4999 ++ u16 "aa".

(** 4999 letters, a space and one more letter: 5001 characters with no
    whitespace at either end. *)
Definition long_input : jsstring := repeat 97 4999 ++ u16 " b".

(** ** Reading entities back

    The inverse reading of the five entities, against which the output of
    [escapeHtml] is compared. *)

(** [strip p s]: the rest of [s] after its prefix [p], if [p] is one. *)
Fixpoint strip (p s : jsstring) : option jsstring :=
  match p, s with
  | [], _ => Some s
  | _ :: _, [] => None
  | a :: p', b :: s' => if a =? b then strip p' s' else None
  end.

(** The character an entity stands for, with the text after the entity. *)
Definition read_entity (s : jsstring) : option (code_unit * jsstring) :=
  match strip (u16 "&amp;") s with
  | Some r => Some (38, r)
  | None =>
  match strip (u16 "&lt;") s with
  | Some r => Some (60, r)
  | None =>
  match strip (u16 "&gt;") s with
  | Some r => Some (62, r)
  | None =>
  match strip (u16 "&quot;") s with
  | Some r => Some (34, r)
  | None =>
  match strip (u16 "&#039;") s with
  | Some r => Some (39, r)
  | None => None
  end end end end end.

Fixpoint unescape_steps (n : nat) (s : jsstring) : jsstring :=
  match n, s with
  | O, _ => []
  | _, [] => []
  | S n', c :: rest =>
      match read_entity s with
      | Some (d, rest') => d :: unescape_steps n' rest'
      | None => c :: unescape_steps n' rest
      end
  end.

Definition unescapeHtml (s : jsstring) : jsstring :=
  unescape_steps (length s) s.

(** ** Several requests in turn

    The handler run on one request after another, each with what the world
    contributes to it, the module state passing from one run to the next. *)
Fixpoint serve `{CaseMapping} (env : ProcessEnv)
    (reqs : list (Request * World)) (st : State) : list Result * State :=
  match reqs with
  | [] => ([], st)
  | (req, w) :: later =>
      let r := handler env req w st in
      let '(rs, st') := serve env later (final r) in
      (r :: rs, st')
  end.

(** The number of runs that handed a message to [sendMail] for a client. *)
Definition dispatched_for `{CaseMapping} (id : jsstring)
    (reqs : list (Request * World)) (rs : list Result) : nat :=
  length (filter (fun p => clientIP (fst (fst p)) = id
                           /\ is_Some (dispatched (snd p)))
            (zip reqs rs)).

(** The number of calls of the rate limiter that were allowed. *)
Definition allowed_count (verdicts : list bool) : nat :=
  length (filter (fun b => b = true) verdicts).

(** The promise is fulfilled, and no later than [ms] after the race
    starts. *)
Definition fulfilled_within (ms : Z) (p : Promise) : Prop :=
  exists t, settles_at p = Some t /\ (t <= ms)%Z /\ outcome p = Fulfilled.

(** The stored timestamps of an identifier that are not older than [lo]. *)
Definition since (lo : Z) (m : gmap (list N) (list Z)) (id : jsstring) : list Z :=
  filter (fun t => (lo <= t)%Z) (timestamps m id).

(** ** The SendGrid variant of the route

    The third module of [routes/email.js]: the same helpers
    ([validateEmail], [sanitizeInput], [checkRateLimit] with its default
    arguments), its own templates, validation messages, timeout and
    [catch] block. *)

Module SendGrid.

(** [(text || '').toString().replace(...)] on a string. *)
Definition escapeHtml (text : jsstring) : jsstring :=
  replace_class escape_class (fun m => map_get escape_map [m])
    (if str_falsy text then [] else text).

Record ProcessEnv : Type := {
  SENDGRID_API_KEY : option jsstring;
  GMAIL_EMAIL : option jsstring;
  NODE_ENV : option jsstring
}.

(** The [htmlBody] template literal. *)
Definition htmlBody (escapedName escapedEmail escapedMessage sentOn : jsstring)
    : jsstring :=
  u16 "
      <div style="
  ++ dquote
  ++ u16 "font-family:Arial,sans-serif;max-width:600px;margin:0 auto;"
  ++ dquote
  ++ u16 ">
        <h2 style="
  ++ dquote
  ++ u16 "color:#333;border-bottom:2px solid #0066cc;"
  ++ dquote
  ++ u16 ">New Message from Portfolio Contact Form</h2>
        <p><strong>Name:</strong> "
  ++ escapedName
  ++ u16 "</p>
        <p><strong>Email:</strong> "
  ++ escapedEmail
  ++ u16 "</p>
        <p><strong>Message:</strong></p>
        <div style="
  ++ dquote
  ++ u16 "background:#f5f5f5;padding:15px;border-left:4px solid #0066cc;"
  ++ dquote
  ++ u16 ">"
  ++ escapedMessage
  ++ u16 "</div>
        <hr>
        <p style="
  ++ dquote
  ++ u16 "color:#999;font-size:12px;"
  ++ dquote
  ++ u16 ">Sent on "
  ++ sentOn
  ++ u16 "</p>
      </div>
    ".

(** The [textBody] template literal. *)
Definition textBody (name email message sentOn : jsstring) : jsstring :=
  u16 "Name: "
  ++ name
  ++ u16 "
Email: "
  ++ email
  ++ u16 "

Message:
"
  ++ message
  ++ u16 "

Sent on "
  ++ sentOn.

(** [name], [email] and [message] as this handler holds them: no [trim]
    after [sanitizeInput]. *)
Definition extract `{CaseMapping} (body : JsValue) : Fields :=
  {| f_name := sanitizeInput (getProp body (u16 "name"));
     f_email := toLowerCase (sanitizeInput (getProp body (u16 "email")));
     f_message := sanitizeInput (getProp body (u16 "message")) |}.

Definition validate `{CaseMapping} (f : Fields) : option string :=
  if str_falsy (f_name f) || (jslength (f_name f) <? 2)%nat
     || (100 <? jslength (f_name f))%nat
  then Some "Name must be 2-100 characters"%string
  else if negb (validateEmail (JStr (f_email f)))
  then Some "Valid email required"%string
  else if str_falsy (f_message f) || (jslength (f_message f) <? 10)%nat
          || (5000 <? jslength (f_message f))%nat
  then Some "Message must be 10-5000 characters"%string
  else None.

Definition buildMail (env : ProcessEnv) (w : World) (f : Fields) : MailOptions :=
  let escapedName := escapeHtml (f_name f) in
  let escapedEmail := escapeHtml (f_email f) in
  let escapedMessage := nl2br (escapeHtml (f_message f)) in
  {| mail_to := env_get (GMAIL_EMAIL env);
     mail_from := env_get (GMAIL_EMAIL env);
     mail_replyTo := f_email f;
     mail_subject := u16 "New Portfolio Contact from " ++ escapedName;
     mail_text := textBody (f_name f) (f_email f) (f_message f) (sentOnText w);
     mail_html := htmlBody escapedName escapedEmail escapedMessage (sentOnHtml w) |}.

Definition SEND_TIMEOUT_MS : Z := 60000.

Definition timeoutError : JsError :=
  {| err_message := u16 "SendGrid timeout"; err_code := None |}.

(** The [catch] block. *)
Definition handleError (env : ProcessEnv) (e : JsError) : Response :=
  let isDev := bool_decide (NODE_ENV env = Some (u16 "development")) in
  {| status := 503; success := false;
     message := u16 "Email service temporarily unavailable.";
     error := if isDev then Some (err_message e) else None |}.

(** The run of this handler: the response, the ledger of this module and
    the message handed to [sgMail.send]. *)
Record Result : Type := {
  response : Response;
  final : gmap (list N) (list Z);
  dispatched : option MailOptions
}.

Definition handler `{CaseMapping} (env : ProcessEnv) (req : Request)
    (w : World) (rateLimitMap : gmap (list N) (list Z)) : Result :=
  let clientIP := clientIP req in
  if falsy (req_body req) || negb (bool_decide (typeof (req_body req) = TObject))
  then {| response := respond 400 false "Request body must be JSON";
          final := rateLimitMap; dispatched := None |}
  else
    let f := extract (req_body req) in
    match validate f with
    | Some reason =>
        {| response := respond 400 false reason;
           final := rateLimitMap; dispatched := None |}
    | None =>
        let '(allowed, ledger) :=
          checkRateLimit (now w) clientIP 5 3600000 rateLimitMap in
        if negb allowed
        then {| response := respond 429 false "Too many requests. Try again later.";
                final := ledger; dispatched := None |}
        else if env_missing (SENDGRID_API_KEY env) || env_missing (GMAIL_EMAIL env)
        then {| response := respond 500 false "Server configuration error";
                final := ledger; dispatched := None |}
        else
          let msg := buildMail env w f in
          let raced :=
            promise_race (sendMail w) (rejectAfter SEND_TIMEOUT_MS timeoutError) in
          match outcome raced with
          | Fulfilled =>
              {| response :=
                   respond 200 true
                     "Email sent successfully! I will get back to you soon.";
                 final := ledger; dispatched := Some msg |}
          | Rejected e =>
              {| response := handleError env e;
                 final := ledger; dispatched := Some msg |}
          end
    end.

End SendGrid.

(** ** The server: [normalizeUrl] and the CORS policy *)

Module Server.

(** [s.endsWith(suffix)] *)
Definition endsWith (suffix s : jsstring) : bool :=
  isPrefix (rev suffix) (rev s).

(** [s.slice(0, -1)] *)
Definition dropLast (s : jsstring) : jsstring :=
  take (length s - 1) s.

(** [normalizeUrl(url)], for a string or [undefined]. *)
Definition normalizeUrl (url : option jsstring) : jsstring :=
  match url with
  | None => []
  | Some s =>
      if str_falsy s then []
      else if endsWith (u16 "/") s then dropLast s else s
  end.

Record ProcessEnv : Type := {
  CLIENT_URL : option jsstring;
  NODE_ENV : option jsstring
}.

(** [process.env.NODE_ENV || 'development'] *)
Definition nodeEnv (env : ProcessEnv) : jsstring :=
  or_else (NODE_ENV env) (u16 "development").

(** [normalizeUrl(process.env.CLIENT_URL) || '<the deployed site>'] *)
Definition clientUrl (env : ProcessEnv) : jsstring :=
  or_else (Some (normalizeUrl (CLIENT_URL env)))
    (u16 "https://portfolio-tushar-kaklotar.vercel.app").

Definition allowedOrigins (env : ProcessEnv) : list jsstring :=
  [ u16 "http://localhost:5173";
    u16 "http://localhost:3000";
    u16 "http://localhost:5000";
    clientUrl env ].

(** What the [origin] function of [corsOptions] passes to its callback:
    [callback(null, true)] or [callback(new Error(...))]. *)
Inductive CorsVerdict : Type :=
| Allow
| Refuse (e : JsError).

Definition corsOrigin (env : ProcessEnv) (origin : option jsstring)
    : CorsVerdict :=
  if bool_decide (nodeEnv env = u16 "development") then Allow
  else if env_missing origin || bool_decide (env_get origin ∈ allowedOrigins env)
  then Allow
  else Refuse {| err_message := u16 "Not allowed by CORS"; err_code := None |}.

End Server.

(** ** More sample data *)

Definition full_state : State :=
  {| rateLimitMap := full_ledger; transporter := None |}.

Definition early_world : World :=
  {| now := 60; sentOnHtml := []; sentOnText := []; sendMail := delivered |}.

Definition sendgrid_env : SendGrid.ProcessEnv :=
  {| SendGrid.SENDGRID_API_KEY := Some (u16 "SG.key");
     SendGrid.GMAIL_EMAIL := Some (u16 "owner@gmail.com");
     SendGrid.NODE_ENV := None |}.

Definition production_server : Server.ProcessEnv :=
  {| Server.CLIENT_URL := Some (u16 "https://example.com/");
     Server.NODE_ENV := Some (u16 "production") |}.

(** The same valid request seven times within a minute. *)
Definition seven_requests : list (Request * World) :=
  map (fun k => (valid_request,
                 {| now := 1700000000000 + k; sentOnHtml := []; sentOnText := [];
                    sendMail := delivered |}))
      [0; 1000; 2000; 3000; 4000; 5000; 6000]%Z.

(** * Properties *)

(** ** Trimming and [sanitizeInput] *)

Section Trimming.

Implicit Types s : list N.

Lemma trimStart_id s : starts_with_space s = false -> trimStart s = s.
Proof. destruct s as [|c s]; simpl; [done|]. by intros ->. Qed.

Lemma trimStart_starts s : starts_with_space (trimStart s) = false.
Proof.
  induction s as [|c s IH]; simpl; [done|].
  destruct (isWhiteSpace c) eqn:E; [done|]. simpl. by rewrite E.
Qed.

(** [trimStart] removes a prefix. *)
Lemma trimStart_suffix s : exists ws, s = ws ++ trimStart s.
Proof.
  induction s as [|c s [ws IH]]; simpl.
  - by exists [].
  - destruct (isWhiteSpace c).
    + exists (c :: ws). simpl. by rewrite <- IH.
    + by exists [].
Qed.

(** [trimEnd] removes a suffix. *)
Lemma trimEnd_prefix s : exists ws, s = trimEnd s ++ ws.
Proof.
  unfold trimEnd. destruct (trimStart_suffix (rev s)) as [ws E].
  exists (rev ws). rewrite <- rev_app_distr, <- E. by rewrite rev_involutive.
Qed.

Lemma trimEnd_ends s : ends_with_space (trimEnd s) = false.
Proof.
  unfold ends_with_space, trimEnd. rewrite rev_involutive.
  apply trimStart_starts.
Qed.

Lemma trimEnd_id s : ends_with_space s = false -> trimEnd s = s.
Proof.
  unfold ends_with_space, trimEnd. intros E.
  rewrite trimStart_id by done. apply rev_involutive.
Qed.

Lemma prefix_starts s t :
  starts_with_space (s ++ t) = false -> starts_with_space s = false.
Proof. by destruct s. Qed.

Lemma trimEnd_starts s :
  starts_with_space s = false -> starts_with_space (trimEnd s) = false.
Proof.
  intros E. destruct (trimEnd_prefix s) as [ws Hs].
  rewrite Hs in E. by apply prefix_starts in E.
Qed.

Lemma trim_starts s : starts_with_space (trim s) = false.
Proof. apply trimEnd_starts, trimStart_starts. Qed.

Lemma trim_ends s : ends_with_space (trim s) = false.
Proof. apply trimEnd_ends. Qed.

(** A string with no whitespace at either end is left as it is. *)
Lemma trim_id s :
  starts_with_space s = false -> ends_with_space s = false -> trim s = s.
Proof.
  intros E1 E2. unfold trim. rewrite trimStart_id by done. by apply trimEnd_id.
Qed.

Lemma trim_idempotent s : trim (trim s) = trim s.
Proof. apply trim_id; [apply trim_starts | apply trim_ends]. Qed.

Lemma trimStart_length s : (length (trimStart s) <= length s)%nat.
Proof.
  destruct (trimStart_suffix s) as [ws E]. rewrite E at 2.
  rewrite length_app. lia.
Qed.

Lemma trimEnd_length s : (length (trimEnd s) <= length s)%nat.
Proof.
  destruct (trimEnd_prefix s) as [ws E]. rewrite E at 2.
  rewrite length_app. lia.
Qed.

Lemma trim_length s : (length (trim s) <= length s)%nat.
Proof.
  unfold trim. etrans; [apply trimEnd_length | apply trimStart_length].
Qed.

Lemma trim_nil : trim [] = [].
Proof. reflexivity. Qed.

Lemma sanitizeInput_length v : (length (sanitizeInput v) <= MAX_INPUT)%nat.
Proof.
  destruct v; cbn [sanitizeInput length]; try lia.
unfold substring0. rewrite length_take. lia.
Qed.

Lemma sanitizeInput_starts v : starts_with_space (sanitizeInput v) = false.
Proof.
  destruct v; try done. unfold sanitizeInput, substring0.
  pose proof (trim_starts s) as E.
  rewrite <- (take_drop MAX_INPUT (trim s)) in E.
  by apply prefix_starts in E.
Qed.

(** A second application only trims. *)
Lemma sanitizeInput_twice s :
  sanitizeInput (JStr (sanitizeInput (JStr s))) = trim (sanitizeInput (JStr s)).
Proof.
  set (u := sanitizeInput (JStr s)). unfold sanitizeInput at 1, substring0.
  apply take_ge. etrans; [apply trim_length | apply sanitizeInput_length].
Qed.

(** The second application changes the string exactly when truncation
    left whitespace at its end. *)
Lemma sanitizeInput_twice_iff s :
  sanitizeInput (JStr (sanitizeInput (JStr s))) = sanitizeInput (JStr s)
  <-> ends_with_space (sanitizeInput (JStr s)) = false.
Proof.
  rewrite sanitizeInput_twice. split.
  - intros <-. apply trim_ends.
  - intros E. apply trim_id; [apply sanitizeInput_starts | done].
Qed.

(** What the handler keeps, [sanitizeInput(x).trim()], is a fixed point of
    [sanitizeInput]. *)
Lemma sanitizeInput_trimmed v :
  sanitizeInput (JStr (trim (sanitizeInput v))) = trim (sanitizeInput v).
Proof.
  unfold sanitizeInput at 1, substring0. rewrite trim_idempotent.
  apply take_ge. etrans; [apply trim_length | apply sanitizeInput_length].
Qed.

End Trimming.

(** C3, as stated, fails: [long_input] has no whitespace at either end, so
    [sanitizeInput] only cuts it after its 5000th character, which is the
    space; a second application trims that space away. *)
Lemma sanitizeInput_not_idempotent :
  sanitizeInput (JStr long_input) = repeat 97 4999 ++ u16 " "
  /\ sanitizeInput (JStr (sanitizeInput (JStr long_input))) = repeat 97 4999
  /\ sanitizeInput (JStr (sanitizeInput (JStr long_input)))
     <> sanitizeInput (JStr long_input).
Proof.
  assert (E1 : sanitizeInput (JStr long_input) = repeat 97 4999 ++ u16 " ")
    by (vm_compute; reflexivity).
  assert (E2 : sanitizeInput (JStr (sanitizeInput (JStr long_input)))
               = repeat 97 4999) by (vm_compute; reflexivity).
  split; [exact E1|]. split; [exact E2|].
  rewrite E2, E1. intros E. apply (f_equal length) in E.
  rewrite length_app, !repeat_length in E. simpl in E. lia.
Qed.

(** C3 (amended): a second application of [sanitizeInput] only trims:
    for every string, sanitizing the sanitized string gives the sanitized
    string trimmed. It therefore gives the sanitized string again exactly
    when that string does not end in whitespace, which is so whenever the
    trimmed input has at most 5000 characters; and a third application
    changes nothing. *)
Theorem sanitizeInput_second_application (s : list N) :
  sanitizeInput (JStr (sanitizeInput (JStr s))) = trim (sanitizeInput (JStr s))
  /\ (sanitizeInput (JStr (sanitizeInput (JStr s))) = sanitizeInput (JStr s)
      <-> ends_with_space (sanitizeInput (JStr s)) = false)
  /\ ((length (trim s) <= MAX_INPUT)%nat ->
      sanitizeInput (JStr (sanitizeInput (JStr s))) = sanitizeInput (JStr s))
  /\ sanitizeInput (JStr (sanitizeInput (JStr (sanitizeInput (JStr s)))))
     = sanitizeInput (JStr (sanitizeInput (JStr s))).
Proof.
  split; [apply sanitizeInput_twice|].
  split; [apply sanitizeInput_twice_iff|]. split.
  - intros Hlen. apply sanitizeInput_twice_iff.
    unfold sanitizeInput, substring0. rewrite take_ge by done. apply trim_ends.
  - rewrite (sanitizeInput_twice s). apply sanitizeInput_trimmed.
Qed.

Lemma sanitizeInput_second_application_witness :
  sanitizeInput (JStr (sanitizeInput (JStr letters_5001)))
  = sanitizeInput (JStr letters_5001)
  /\ sanitizeInput (JStr (sanitizeInput (JStr (u16 "  Ada Lovelace  "))))
     = sanitizeInput (JStr (u16 "  Ada Lovelace  ")).
Proof.
  split.
  - apply (proj2 (proj1 (proj2 (sanitizeInput_second_application _)))).
    vm_compute. reflexivity.
  - apply (proj1 (proj2 (proj2 (sanitizeInput_second_application _)))).
    apply Nat.leb_le. vm_compute. reflexivity.
Defined.

(** ** The rate limiter *)

Section RateLimiter.

Implicit Types (m : gmap (list N) (list Z)) (id : list N).

Local Open Scope Z_scope.

(** Case analysis on the integer comparison that the goal branches on. *)
Ltac leb_cases :=
  match goal with
  | |- context [(?a <=? ?b)%Z] => destruct (Z.leb_spec a b)
  end.

Lemma filter_keeps_all (P : Z -> Prop) `{!forall t, Decision (P t)} (l : list Z) :
  Forall P l -> filter P l = l.
Proof.
  induction 1 as [|t l Ht _ IH]; [done|].
  rewrite filter_cons_True by done. by rewrite IH.
Qed.

Lemma filter_drops_all (P : Z -> Prop) `{!forall t, Decision (P t)} (l : list Z) :
  Forall (fun t => ~ P t) l -> filter P l = [].
Proof.
  induction 1 as [|t l Ht _ IH]; [done|].
  by rewrite filter_cons_False.
Qed.

Lemma timestamps_insert m id l : timestamps (<[id := l]> m) id = l.
Proof. unfold timestamps. by rewrite lookup_insert_eq. Qed.

Lemma timestamps_insert_ne m id id' l :
  id <> id' -> timestamps (<[id := l]> m) id' = timestamps m id'.
Proof. intros. unfold timestamps. by rewrite lookup_insert_ne. Qed.

Lemma recent_insert now w m id l :
  recent now w (<[id := l]> m) id = filter (fun time => now - time < w) l.
Proof. unfold recent. by rewrite timestamps_insert. Qed.

(** The call allows the request when fewer than [maxRequests] timestamps
    are recent, and then stores the recent ones followed by [now]. *)
Lemma checkRateLimit_allows now id maxRequests w m :
  Z.of_nat (length (recent now w m id)) < maxRequests ->
  checkRateLimit now id maxRequests w m
  = (true, <[id := recent now w m id ++ [now]]> m).
Proof.
  intros Hlt. unfold checkRateLimit, recent, timestamps in *.
  destruct (m !! id) as [l|] eqn:E.
  - rewrite E. simpl in *. leb_cases; [lia | done].
  - rewrite lookup_insert_eq. simpl in *. leb_cases; [simpl in *; lia|].
    by rewrite insert_insert_eq.
Qed.

(** The call denies the request otherwise; the map it leaves has an entry
    for the identifier, empty if there was none. *)
Lemma checkRateLimit_denies now id maxRequests w m :
  maxRequests <= Z.of_nat (length (recent now w m id)) ->
  checkRateLimit now id maxRequests w m
  = (false, match m !! id with
            | None => <[id := []]> m
            | Some _ => m
            end).
Proof.
  intros Hle. unfold checkRateLimit, recent, timestamps in *.
  destruct (m !! id) as [l|] eqn:E.
  - rewrite E. simpl in *. leb_cases; [done | lia].
  - rewrite lookup_insert_eq. simpl in *. leb_cases; [done | simpl in *; lia].
Qed.

Lemma checkRateLimit_verdict now id maxRequests w m :
  fst (checkRateLimit now id maxRequests w m)
  = negb (maxRequests <=? Z.of_nat (length (recent now w m id))).
Proof.
  destruct (Z.leb_spec maxRequests (Z.of_nat (length (recent now w m id)))).
  - by rewrite checkRateLimit_denies.
  - by rewrite checkRateLimit_allows.
Qed.

(** Whatever the verdict, the other identifiers keep their timestamps. *)
Lemma checkRateLimit_others now id id' maxRequests w m :
  id <> id' ->
  snd (checkRateLimit now id maxRequests w m) !! id' = m !! id'.
Proof.
  intros Hne.
  destruct (Z.leb_spec maxRequests (Z.of_nat (length (recent now w m id)))).
  - rewrite checkRateLimit_denies by done. simpl.
    destruct (m !! id); [done|]. by rewrite lookup_insert_ne.
  - rewrite checkRateLimit_allows by done. simpl. by rewrite lookup_insert_ne.
Qed.

(** A denial keeps every identifier's timestamps, read as none when the
    identifier has no entry. *)
Lemma checkRateLimit_denial_timestamps now id id' maxRequests w m :
  fst (checkRateLimit now id maxRequests w m) = false ->
  timestamps (snd (checkRateLimit now id maxRequests w m)) id' = timestamps m id'.
Proof.
  rewrite checkRateLimit_verdict. intros Hv.
  apply negb_false_iff, Z.leb_le in Hv.
  rewrite checkRateLimit_denies by done. simpl.
  destruct (m !! id) as [l|] eqn:E; [done|].
  unfold timestamps. destruct (decide (id = id')) as [->|Hne].
  - by rewrite lookup_insert_eq, E.
  - by rewrite lookup_insert_ne.
Qed.

(** The two verdicts on a ledger whose entry for the identifier is known
    and lies wholly within the window. *)
Lemma allow_step now id maxRequests w l m :
  Forall (fun t => now - t < w) l ->
  Z.of_nat (length l) < maxRequests ->
  checkRateLimit now id maxRequests w (<[id := l]> m)
  = (true, <[id := l ++ [now]]> m).
Proof.
  intros Hin Hlen.
  rewrite checkRateLimit_allows; rewrite recent_insert, filter_keeps_all by done;
    [|done].
  by rewrite insert_insert_eq.
Qed.

Lemma deny_step now id maxRequests w l m :
  Forall (fun t => now - t < w) l ->
  maxRequests <= Z.of_nat (length l) ->
  checkRateLimit now id maxRequests w (<[id := l]> m) = (false, <[id := l]> m).
Proof.
  intros Hin Hlen.
  rewrite checkRateLimit_denies.
  - by rewrite lookup_insert_eq.
  - by rewrite recent_insert, filter_keeps_all.
Qed.

(** Every element of an explicit list of clock readings satisfies a linear
    constraint. *)
Ltac within_window :=
  repeat (apply Forall_cons_2; [cbv beta; lia|]); apply Forall_nil_2.

(** The one call that leaves an entry behind on a denial: an identifier
    without an entry and [maxRequests = 0], which no caller passes (the
    handlers pass 5 or leave the default 5). The entry it leaves is empty. *)
Lemma denial_can_add_entry :
  checkRateLimit 1700000000000 (u16 "203.0.113.7") 0 3600000 ∅
  = (false, {[ u16 "203.0.113.7" := [] ]})
  /\ snd (checkRateLimit 1700000000000 (u16 "203.0.113.7") 0 3600000 ∅) <> ∅.
Proof.
  assert (E : checkRateLimit 1700000000000 (u16 "203.0.113.7") 0 3600000 ∅
              = (false, {[ u16 "203.0.113.7" := [] ]})).
  { rewrite checkRateLimit_denies; [done|]. unfold recent, timestamps.
    rewrite lookup_empty. simpl. lia. }
  split; [exact E|]. rewrite E. simpl. apply insert_non_empty.
Qed.

(** C5: whenever the identifier has at least [maxRequests] timestamps
    within the window, the call returns false and does not change the
    rate-limit state: every identifier has the timestamps it had (none
    when it has no entry), and for every [maxRequests] of at least 1, as
    in every call the code makes, the ledger after the call equals the
    ledger before it. *)
Theorem denial_keeps_ledger now id maxRequests w m :
  maxRequests <= Z.of_nat (length (recent now w m id)) ->
  fst (checkRateLimit now id maxRequests w m) = false
  /\ (forall id',
        timestamps (snd (checkRateLimit now id maxRequests w m)) id'
        = timestamps m id')
  /\ (1 <= maxRequests -> checkRateLimit now id maxRequests w m = (false, m)).
Proof.
  intros Hcount. rewrite checkRateLimit_denies by done. cbn [fst snd].
  split; [done|]. split.
  - intros id'. destruct (m !! id) as [l|] eqn:E; [done|].
    unfold timestamps. destruct (decide (id = id')) as [->|Hne].
    + by rewrite lookup_insert_eq, E.
    + by rewrite lookup_insert_ne.
  - intros Hmax. destruct (m !! id) as [l|] eqn:E; [done|].
    unfold recent, timestamps in Hcount. rewrite E in Hcount.
    simpl in Hcount. lia.
Qed.

Lemma denial_keeps_ledger_witness :
  fst (checkRateLimit 60 (u16 "203.0.113.7") 5 3600000 full_ledger) = false
  /\ checkRateLimit 60 (u16 "203.0.113.7") 5 3600000 full_ledger
     = (false, full_ledger).
Proof.
  assert (Hcount : 5 <= Z.of_nat (length (recent 60 3600000 full_ledger
                                            (u16 "203.0.113.7"))))
    by (vm_compute; discriminate).
  pose proof (denial_keeps_ledger 60 (u16 "203.0.113.7") 5 3600000 full_ledger
                Hcount) as (Hfalse & _ & Hsame).
  split; [exact Hfalse|]. apply Hsame. lia.
Defined.

(** C4: for an identifier with no timestamp inside the window at the first
    call (a new identifier in particular), six calls at clock readings that
    lie within one window are answered true five times and then false, and
    a call made once the window has elapsed since them is answered true. *)
Theorem six_calls_then_a_new_window id m t1 t2 t3 t4 t5 t6 t7 :
  Forall (fun t => 3600000 <= t1 - t) (timestamps m id) ->
  t1 <= t2 /\ t2 <= t3 /\ t3 <= t4 /\ t4 <= t5 /\ t5 <= t6 ->
  t6 - t1 < 3600000 ->
  3600000 <= t7 - t6 ->
  exists m6,
    allow_calls id 5 3600000 [t1; t2; t3; t4; t5; t6] m
    = ([true; true; true; true; true; false], m6)
    /\ fst (checkRateLimit t7 id 5 3600000 m6) = true.
Proof.
  intros Hfresh (H12 & H23 & H34 & H45 & H56) Hwin Hlater.
  assert (R1 : recent t1 3600000 m id = []).
  { unfold recent. apply filter_drops_all.
    eapply Forall_impl; [exact Hfresh|]. simpl. intros t Ht. lia. }
  exists (<[id := [t1; t2; t3; t4; t5]]> m). cbn [allow_calls].
  rewrite (checkRateLimit_allows t1) by (rewrite R1; simpl; lia).
  rewrite R1. cbn [app].
  repeat (rewrite allow_step by (simpl; first [lia | within_window]);
          cbn [app]).
  rewrite deny_step by (simpl; first [lia | within_window]).
  split; [done|].
  rewrite checkRateLimit_verdict, recent_insert, filter_drops_all
    by within_window.
  done.
Qed.

Lemma six_calls_then_a_new_window_witness :
  exists m6,
    allow_calls (u16 "ip1") 5 3600000 [0; 1000; 2000; 3000; 4000; 5000] ∅
    = ([true; true; true; true; true; false], m6)
    /\ fst (checkRateLimit 3605000 (u16 "ip1") 5 3600000 m6) = true.
Proof.
  apply (six_calls_then_a_new_window (u16 "ip1") ∅ 0 1000 2000 3000 4000 5000 3605000).
  - unfold timestamps. rewrite lookup_empty. apply Forall_nil_2.
  - lia.
  - lia.
  - lia.
Defined.

End RateLimiter.

(** ** Patterns: [test] decides the language of a pattern *)

Section Patterns.

Implicit Types (r : Regex) (s : list N) (c : N).

Lemma Matches_cat_inv r1 r2 s :
  Matches (RCat r1 r2) s ->
  exists s1 s2, s = s1 ++ s2 /\ Matches r1 s1 /\ Matches r2 s2.
Proof. inversion 1; subst. eauto. Qed.

Lemma Matches_lit_inv c s : Matches (RLit c) s -> s = [c].
Proof. by inversion 1. Qed.

Lemma Matches_set_inv neg items s :
  Matches (RSet neg items) s -> exists c, s = [c] /\ set_matches neg items c = true.
Proof. inversion 1; subst. eauto. Qed.

Lemma nullable_sound r : nullable r = true -> Matches r [].
Proof.
  induction r as [| | d | neg items | r1 IH1 r2 IH2 | r1 IH1 r2 IH2 | r1 IH1];
    simpl; intros Hn; try discriminate.
  - constructor.
  - apply andb_true_iff in Hn as [H1 H2].
    change (@nil N) with (@nil N ++ []). constructor; auto.
  - apply orb_true_iff in Hn as [H1|H2]; [apply MAltL | apply MAltR]; auto.
  - apply MPlusOne; auto.
Qed.

Lemma nullable_complete r s : Matches r s -> s = [] -> nullable r = true.
Proof.
  induction 1 as [| d | neg items d Hd | r1 r2 s1 s2 _ IH1 _ IH2
                 | r1 r2 s _ IH | r1 r2 s _ IH | r1 s _ IH
                 | r1 s1 s2 _ IH1 _ IH2]; intros E; simpl; try discriminate.
  - done.
  - apply app_eq_nil in E as [-> ->]. by rewrite IH1, IH2.
  - by rewrite IH.
  - rewrite IH by done. apply orb_true_r.
  - auto.
  - apply app_eq_nil in E as [-> ->]. auto.
Qed.

Lemma nullable_matches r : nullable r = true <-> Matches r [].
Proof.
  split; [apply nullable_sound | intros; by eapply nullable_complete].
Qed.

Lemma deriv_sound c r : forall s, Matches (deriv c r) s -> Matches r (c :: s).
Proof.
  induction r as [| | d | neg items | r1 IH1 r2 IH2 | r1 IH1 r2 IH2 | r1 IH1];
    simpl; intros s Hm.
  - inversion Hm.
  - inversion Hm.
  - destruct (N.eqb_spec c d) as [->|]; inversion Hm; subst. constructor.
  - destruct (set_matches neg items c) eqn:E; inversion Hm; subst.
    by constructor.
  - destruct (nullable r1) eqn:En.
    + inversion Hm as [| | | | ? ? ? Hl | ? ? ? Hr | |]; subst.
      * apply Matches_cat_inv in Hl as (s1 & s2 & -> & H1 & H2).
        change (c :: s1 ++ s2) with ((c :: s1) ++ s2). constructor; auto.
      * change (c :: s) with ([] ++ c :: s).
        constructor; [by apply nullable_sound | auto].
    + apply Matches_cat_inv in Hm as (s1 & s2 & -> & H1 & H2).
      change (c :: s1 ++ s2) with ((c :: s1) ++ s2). constructor; auto.
  - inversion Hm; subst; [apply MAltL | apply MAltR]; auto.
  - apply Matches_cat_inv in Hm as (s1 & s2 & -> & H1 & H2).
    change (c :: s1 ++ s2) with ((c :: s1) ++ s2).
    inversion H2 as [| | | | ? ? ? Hl | ? ? ? Hr | |]; subst.
    + inversion Hl; subst. rewrite app_nil_r. apply MPlusOne; auto.
    + apply MPlusMore; auto.
Qed.

Lemma deriv_complete c r s' :
  Matches r s' -> forall s, s' = c :: s -> Matches (deriv c r) s.
Proof.
  induction 1 as [| d | neg items d Hd | r1 r2 s1 s2 H1 IH1 H2 IH2
                 | r1 r2 s0 _ IH | r1 r2 s0 _ IH | r1 s0 _ IH
                 | r1 s1 s2 H1 IH1 H2 IH2]; intros s E; simpl.
  - discriminate.
  - injection E as -> <-. rewrite N.eqb_refl. constructor.
  - injection E as -> <-. rewrite Hd. constructor.
  - destruct s1 as [|c1 s1]; simpl in E.
    + rewrite (nullable_complete _ _ H1 eq_refl). apply MAltR; auto.
    + injection E as -> <-.
      destruct (nullable r1); [apply MAltL|]; constructor; auto.
  - apply MAltL; auto.
  - apply MAltR; auto.
  - rewrite <- (app_nil_r s). constructor; [auto|]. apply MAltL. constructor.
  - destruct s1 as [|c1 s1]; simpl in E.
    + specialize (IH2 _ E). exact IH2.
    + injection E as -> <-. constructor; [auto|]. by apply MAltR.
Qed.

Lemma deriv_matches c r s : Matches (deriv c r) s <-> Matches r (c :: s).
Proof.
  split; [apply deriv_sound | intros; by eapply deriv_complete].
Qed.

(** [test] accepts exactly the strings of the language. *)
Lemma test_matches s : forall r, test r s = true <-> Matches r s.
Proof.
  induction s as [|c s IH]; intros r; simpl.
  - apply nullable_matches.
  - rewrite IH. apply deriv_matches.
Qed.

Lemma notSpaceAt_plain c : set_matches true [CSpace; CChar 64] c = plain c.
Proof.
  unfold set_matches, plain. simpl. rewrite orb_false_r.
  by destruct (isWhiteSpace c), (c =? 64).
Qed.

Lemma plus_plain_run s : Matches (RPlus notSpaceAt) s <-> plain_run s.
Proof.
  split.
  - intros Hm. remember (RPlus notSpaceAt) as r eqn:Er.
    induction Hm as [| | | | | | r1 s0 H0 _ | r1 s1 s2 H1 _ H2 IH2];
      try discriminate; injection Er as ->.
    + apply Matches_set_inv in H0 as (c & -> & Hc).
      rewrite notSpaceAt_plain in Hc. split; [done|]. by apply Forall_singleton.
    + apply Matches_set_inv in H1 as (c & -> & Hc).
      rewrite notSpaceAt_plain in Hc. destruct (IH2 eq_refl) as [_ Hall].
      split; [done|]. by apply Forall_cons_2.
  - intros [Hne Hall]. induction Hall as [|c s Hc Hall IH]; [done|].
    assert (Hone : Matches notSpaceAt [c])
      by (constructor; by rewrite notSpaceAt_plain).
    destruct s as [|c' s].
    + by apply MPlusOne.
    + change (c :: c' :: s) with ([c] ++ c' :: s). apply MPlusMore; [done|].
      by apply IH.
Qed.

(** The pattern of [validateEmail] describes the shape of the
    specification. *)
Lemma emailRegex_shape s : test emailRegex s = true <-> email_shape s.
Proof.
  rewrite test_matches. unfold emailRegex, email_shape. split.
  - intros Hm.
    apply Matches_cat_inv in Hm as (l & s1 & -> & Hl & Hm).
    apply Matches_cat_inv in Hm as (a & s2 & -> & Ha & Hm).
    apply Matches_cat_inv in Hm as (d & s3 & -> & Hd & Hm).
    apply Matches_cat_inv in Hm as (p & t & -> & Hp & Ht).
    apply Matches_lit_inv in Ha as ->. apply Matches_lit_inv in Hp as ->.
    exists l, d, t. by rewrite <- !plus_plain_run.
  - intros (l & d & t & -> & Hl & Hd & Ht).
    apply plus_plain_run in Hl, Hd, Ht.
    repeat (constructor; try done).
Qed.

End Patterns.

(** ** [validateEmail] *)

(** A closed string is Basic Latin. *)
Ltac solve_basic_latin :=
  unfold basic_latin; apply (bool_decide_unpack _); vm_compute; exact I.

Section ValidateEmail.

Context `{CaseMapping}.

Implicit Types s : list N.

Lemma toLowerCase_nil : toLowerCase [] = [].
Proof. rewrite toLowerCase_basic_latin; [done | apply Forall_nil_2]. Qed.

Lemma trim_basic_latin s : basic_latin s -> basic_latin (trim s).
Proof.
  unfold basic_latin, trim. intros Hs.
  destruct (trimStart_suffix s) as [ws1 E1].
  destruct (trimEnd_prefix (trimStart s)) as [ws2 E2].
  rewrite E1, E2 in Hs. rewrite !Forall_app in Hs. tauto.
Qed.

(** On Basic Latin input every case mapping agrees with the one that acts
    on Basic Latin only. *)
Lemma validateEmail_basic_latin s :
  basic_latin s ->
  validateEmail (JStr s) = @validateEmail BasicLatinCase (JStr s).
Proof.
  intros Hs. unfold validateEmail.
  rewrite (toLowerCase_basic_latin (trim s)) by by apply trim_basic_latin.
  done.
Qed.

Lemma email_shape_nil : ~ email_shape [].
Proof.
  intros (l & d & t & E & _). symmetry in E.
  apply app_eq_nil in E as [_ E]. discriminate.
Qed.

Lemma validateEmail_string s :
  validateEmail (JStr s) = true
  <-> email_shape (toLowerCase (trim s))
      /\ (length (toLowerCase (trim s)) <= 254)%nat.
Proof.
  unfold validateEmail, jslength. destruct s as [|c s].
  - simpl. rewrite trim_nil, toLowerCase_nil. split; [done|].
    intros [Hs _]. by apply email_shape_nil in Hs.
  - cbn [str_falsy]. by rewrite andb_true_iff, emailRegex_shape, Nat.leb_le.
Qed.

Lemma validateEmail_not_string v : typeof v <> TString -> validateEmail v = false.
Proof. by destruct v. Qed.

(** C6: [validateEmail] is true for exactly the strings that, trimmed and
    put in lower case, have the shape [local@domain.tld] made of runs of
    characters that are neither whitespace nor an at sign, and have at most
    254 characters; it is true of [a@b.co], false of [not-an-email] and
    false of [a@b.] followed by 260 letters [c]. *)
Theorem validateEmail_accepts_the_shape :
  (forall s, validateEmail (JStr s) = true
             <-> email_shape (toLowerCase (trim s))
                 /\ (length (toLowerCase (trim s)) <= 254)%nat)
  /\ (forall v, typeof v <> TString -> validateEmail v = false)
  /\ validateEmail (JStr (u16 "a@b.co")) = true
  /\ validateEmail (JStr (u16 "not-an-email")) = false
  /\ validateEmail (JStr (u16 "a@b." ++ repeat 99 260)) = false.
Proof.
  split; [apply validateEmail_string|].
  split; [apply validateEmail_not_string|].
  rewrite !validateEmail_basic_latin by solve_basic_latin.
  repeat split; vm_compute; reflexivity.
Qed.

End ValidateEmail.

(** ** The handler *)

Section Handler.

Context `{CaseMapping}.

Local Open Scope Z_scope.

Implicit Types (env : ProcessEnv) (req : Request) (w : World) (st : State).

(** The race always settles, since the timer does. *)
Lemma race_settles p :
  is_Some (settles_at (promise_race p (rejectAfter SEND_TIMEOUT_MS timeoutError))).
Proof.
  unfold promise_race. simpl. destruct (settles_at p) as [a|] eqn:E.
  - destruct (a <=? SEND_TIMEOUT_MS)%Z; [by rewrite E | done].
  - done.
Qed.

Lemma race_timer_wins p :
  timer_wins p ->
  outcome (promise_race p (rejectAfter SEND_TIMEOUT_MS timeoutError))
  = Rejected timeoutError.
Proof.
  unfold timer_wins, promise_race. simpl. destruct (settles_at p) as [a|]; [|done].
  intros Hlt. destruct (Z.leb_spec a SEND_TIMEOUT_MS); [lia | done].
Qed.

Lemma body_check req :
  body_is_object req
  <-> falsy (req_body req)
      || negb (bool_decide (typeof (req_body req) = TObject)) = false.
Proof.
  unfold body_is_object. rewrite orb_false_iff, negb_false_iff.
  by rewrite bool_decide_eq_true.
Qed.

(** A body that is not an object is refused. *)
Lemma handler_bad_body env req w st :
  ~ body_is_object req ->
  handler env req w st
  = {| response := respond 400 false "Request body must be valid JSON";
       final := st; dispatched := None |}.
Proof.
  rewrite body_check. intros Hb. unfold handler.
  by destruct (falsy _ || _).
Qed.

(** A submission that fails validation is refused with the reason. *)
Lemma handler_invalid env req w st reason :
  body_is_object req ->
  validate (extract (req_body req)) = Some reason ->
  handler env req w st
  = {| response := respond 400 false reason; final := st; dispatched := None |}.
Proof.
  rewrite body_check. intros Hb Hv. unfold handler. by rewrite Hb, Hv.
Qed.

(** The run of a request that passes validation. *)
Lemma handler_valid env req w st :
  body_is_object req ->
  validate (extract (req_body req)) = None ->
  handler env req w st
  = let check :=
      checkRateLimit (now w) (clientIP req) 5 3600000 (rateLimitMap st) in
    let st1 := withLedger st (snd check) in
    if negb (fst check)
    then {| response := respond 429 false "Too many requests. Please try again later.";
            final := st1; dispatched := None |}
    else if env_missing (GMAIL_EMAIL env) || env_missing (GMAIL_PASSWORD env)
    then {| response :=
              respond 500 false "Server configuration error. Please try again later.";
            final := st1; dispatched := None |}
    else
      {| response :=
           match outcome (promise_race (sendMail w)
                            (rejectAfter SEND_TIMEOUT_MS timeoutError)) with
           | Fulfilled =>
               respond 200 true "Email sent successfully! I will get back to you soon."
           | Rejected e => handleError env e
           end;
         final := snd (getTransporter env st1);
         dispatched := Some (buildMail env w (extract (req_body req))) |}.
Proof.
  rewrite body_check. intros Hb Hv. unfold handler. rewrite Hb, Hv.
  destruct (checkRateLimit _ _ _ _ _) as [allowed ledger]. cbn [fst snd].
  destruct allowed; cbn [negb]; [|done].
  destruct (env_missing _ || env_missing _) eqn:Henv; [done|].
  unfold getTransporter. cbn [transporter withLedger]. rewrite Henv.
  destruct (transporter st); by destruct (outcome _).
Qed.

(** Building the transporter leaves the ledger as it is. *)
Lemma getTransporter_ledger env st :
  rateLimitMap (snd (getTransporter env st)) = rateLimitMap st.
Proof.
  unfold getTransporter. destruct (transporter st); [done|].
  by destruct (env_missing _ || env_missing _).
Qed.

(** The status of the answer of the [catch] block. *)
Lemma handleError_status env e :
  status (handleError env e) = 500 \/ status (handleError env e) = 503.
Proof.
  unfold handleError. destruct (bool_decide (err_code e = Some (u16 "EAUTH")));
    [by left|].
  destruct (bool_decide _ || bool_decide _); [by right | by left].
Qed.

End Handler.

(** ** Escaping *)

Section Escaping.

Implicit Types (s p : list N) (c : N).

Lemma escape_entity c :
  (if escape_class c then map_get escape_map [c] else [c]) = entity c.
Proof.
  unfold entity.
  destruct (N.eqb_spec c 38) as [->|H38]; [reflexivity|].
  destruct (N.eqb_spec c 60) as [->|H60]; [reflexivity|].
  destruct (N.eqb_spec c 62) as [->|H62]; [reflexivity|].
  destruct (N.eqb_spec c 34) as [->|H34]; [reflexivity|].
  destruct (N.eqb_spec c 39) as [->|H39]; [reflexivity|].
  unfold escape_class. cbn.
  by rewrite !(proj2 (N.eqb_neq _ _)).
Qed.

(** [escapeHtml] replaces each of the five characters by its entity. *)
Lemma escapeHtml_entities s : escapeHtml s = html_escaped s.
Proof.
  unfold escapeHtml, replace_class, html_escaped.
  induction s as [|c s IH]; [done|].
  cbn [flat_map]. by rewrite IH, escape_entity.
Qed.


(** None of the four markup characters survives escaping, and an ampersand
    only opens an entity. *)
Lemma html_escaped_no_markup s :
  Forall (fun c => c <> 60 /\ c <> 62 /\ c <> 34 /\ c <> 39) (html_escaped s).
Proof.
  unfold html_escaped. induction s as [|c s IH]; [apply Forall_nil_2|].
  cbn [flat_map]. apply Forall_app. split; [|done].
  unfold entity.
  destruct (N.eqb_spec c 38); [repeat constructor; done|].
  destruct (N.eqb_spec c 60); [repeat constructor; done|].
  destruct (N.eqb_spec c 62); [repeat constructor; done|].
  destruct (N.eqb_spec c 34); [repeat constructor; done|].
  destruct (N.eqb_spec c 39); [repeat constructor; done|].
  by repeat constructor.
Qed.

Lemma with_breaks_no_newline s : Forall (fun c => c <> 10) (with_breaks s).
Proof.
  unfold with_breaks. induction s as [|c s IH]; [apply Forall_nil_2|].
  cbn [flat_map]. apply Forall_app. split; [|done].
  destruct (N.eqb_spec c 10); by repeat constructor.
Qed.
















End Escaping.

(** ** Validation *)

Section Validation.

Context `{CaseMapping}.

Implicit Types f : Fields.

(** The handler's tests are the checks taken in the handler's order. *)
Lemma validate_handler_order f : validate f = first_failing handler_order f.
Proof.
  unfold validate, first_failing, handler_order, name_presence, email_presence,
    name_length, email_format, message_presence, message_length.
  cbn [app List.find fst snd].
  repeat match goal with
         | |- context [if ?b then Some _ else _] => destruct b; [reflexivity|]
         end.
  reflexivity.
Qed.

Lemma str_falsy_nil (s : list N) : str_falsy s = true <-> s = [].
Proof. by destruct s. Qed.

Lemma validateEmail_nonempty (s : list N) :
  validateEmail (JStr s) = true -> s <> [].
Proof. by destruct s. Qed.

(** Validation passes exactly when the three fields are within bounds. *)
Lemma validate_in_bounds f : validate f = None <-> in_bounds f.
Proof.
  unfold validate, in_bounds, jslength. split.
  - repeat match goal with
           | |- context [if ?b then Some _ else _] =>
               destruct b eqn:?; [discriminate|]
           end.
    intros _.
    repeat match goal with
           | H : (_ <? _)%nat = false |- _ => apply Nat.ltb_ge in H
           | H : negb _ = false |- _ => apply negb_false_iff in H
           end.
    repeat split; first [done | lia].
  - intros ((Hn1 & Hn2) & He & (Hm1 & Hm2)).
    assert (Hne : f_name f <> []) by (intros E; rewrite E in Hn1; simpl in Hn1; lia).
    assert (Hme : f_message f <> [])
      by (intros E; rewrite E in Hm1; simpl in Hm1; lia).
    pose proof (validateEmail_nonempty _ He) as Hee.
    destruct (f_name f) as [|? ?] eqn:En; [done|].
    destruct (f_email f) as [|? ?] eqn:Ee; [done|].
    destruct (f_message f) as [|? ?] eqn:Em; [done|].
    cbn [str_falsy]. rewrite He. cbn [negb].
    rewrite !(proj2 (Nat.ltb_ge _ _)) by lia. done.
Qed.

Lemma in_bounds_present f : in_bounds f -> present f.
Proof.
  intros ((Hn1 & _) & He & (Hm1 & _)). unfold present, jslength in *.
  repeat split.
  - intros E. rewrite E in Hn1. simpl in Hn1. lia.
  - by apply validateEmail_nonempty.
  - intros E. rewrite E in Hm1. simpl in Hm1. lia.
Qed.

End Validation.

(** ** Properties of the handler *)

Section HandlerProperties.

Context `{CaseMapping}.

Implicit Types (env : ProcessEnv) (req : Request) (w : World) (st : State).

Local Open Scope Z_scope.

(** The three ways a run can go, by the body and the validation. *)
Lemma handler_cases env req w st :
  (~ body_is_object req)
  \/ (body_is_object req /\ exists reason, validate (extract (req_body req)) = Some reason)
  \/ (body_is_object req /\ validate (extract (req_body req)) = None).
Proof.
  destruct (falsy (req_body req)
            || negb (bool_decide (typeof (req_body req) = TObject))) eqn:Hb.
  - left. rewrite body_check, Hb. done.
  - apply body_check in Hb. right.
    destruct (validate (extract (req_body req))) as [reason|]; eauto.
Qed.

(** C1: what the handler answers when the timer wins the race: the
    rejection it raises carries no [code], so the [catch] block takes its
    last branch and answers 500 with the general failure message. *)
Theorem send_timeout_answers_500 env req w st :
  passes_gate req w st ->
  configured env ->
  timer_wins (sendMail w) ->
  response (handler env req w st)
  = {| status := 500; success := false;
       message := u16 "Failed to send email. Please try again later.";
       error := if bool_decide (NODE_ENV env = Some (u16 "development"))
                then Some (u16 "Email send timeout") else None |}.
Proof.
  intros (Hb & Hv & Hr) (He & Hp) Ht.
  rewrite handler_valid by done. cbn zeta. rewrite Hr, He, Hp. cbn [negb orb].
  cbn [response]. rewrite race_timer_wins by done.
  unfold handleError, timeoutError. cbn [err_code err_message].
  rewrite !bool_decide_eq_false_2 by done. cbn [orb].
  by destruct (bool_decide (NODE_ENV env = _)).
Qed.

(** C2 (amended): a submission that fails a check is answered 400 with the
    message of the first failing check in the order name presence, email
    presence, name length, email format, message presence, message
    length. *)
Theorem handler_reports_first_failing_check env req w st reason :
  body_is_object req ->
  first_failing handler_order (extract (req_body req)) = Some reason ->
  handler env req w st
  = {| response := respond 400 false reason; final := st; dispatched := None |}.
Proof.
  intros Hb Hf. apply handler_invalid; [done|].
  by rewrite validate_handler_order.
Qed.

(** The message handed to [sendMail], when there is one. *)
Lemma dispatched_mail env req w st m :
  dispatched (handler env req w st) = Some m ->
  in_bounds (extract (req_body req))
  /\ m = buildMail env w (extract (req_body req)).
Proof.
  destruct (handler_cases env req w st) as [Hb|[[Hb [reason Hv]]|[Hb Hv]]].
  - by rewrite handler_bad_body.
  - by rewrite (handler_invalid _ _ _ _ _ Hb Hv).
  - rewrite (handler_valid _ _ _ _ Hb Hv). cbn zeta.
    destruct (negb _); [done|]. destruct (env_missing _ || env_missing _); [done|].
    cbn [dispatched]. intros [= <-]. split; [|done]. by apply validate_in_bounds.
Qed.


(** C8: a message is handed to [sendMail] only when the three fields are
    present and within bounds, and a request with a field out of bounds is
    answered 400 and hands nothing to [sendMail]. *)
Theorem dispatch_only_within_bounds env req w st :
  (is_Some (dispatched (handler env req w st)) ->
   present (extract (req_body req)) /\ in_bounds (extract (req_body req)))
  /\ (~ in_bounds (extract (req_body req)) ->
      status (response (handler env req w st)) = 400
      /\ dispatched (handler env req w st) = None).
Proof.
  split.
  - intros [m Hm]. apply dispatched_mail in Hm as [Hin _].
    split; [by apply in_bounds_present | done].
  - intros Hout.
    destruct (handler_cases env req w st) as [Hb|[[Hb [reason Hv]]|[Hb Hv]]].
    + by rewrite handler_bad_body.
    + by rewrite (handler_invalid _ _ _ _ _ Hb Hv).
    + by apply validate_in_bounds in Hv.
Qed.

(** C9: a request answered 400 leaves the state, and so the ledger, as it
    was. *)
Theorem rejected_request_keeps_ledger env req w st :
  status (response (handler env req w st)) = 400 ->
  final (handler env req w st) = st
  /\ rateLimitMap (final (handler env req w st)) = rateLimitMap st.
Proof.
  destruct (handler_cases env req w st) as [Hb|[[Hb [reason Hv]]|[Hb Hv]]].
  - by rewrite handler_bad_body.
  - by rewrite (handler_invalid _ _ _ _ _ Hb Hv).
  - rewrite (handler_valid _ _ _ _ Hb Hv). cbn zeta.
    destruct (negb _); [done|]. destruct (env_missing _ || env_missing _); [done|].
    cbn [response]. destruct (outcome _) as [|e]; [done|].
    destruct (handleError_status env e) as [E|E]; rewrite E; done.
Qed.

(** C10: for a request that passes validation and the rate limit, the
    ledger the run leaves holds the client's recent timestamps followed by
    the time of the request, whatever the credentials and whatever becomes
    of the send; and an answer of 500 or 503 is given only after that. *)
Theorem failed_request_consumes_quota env req w st :
  passes_gate req w st ->
  rateLimitMap (final (handler env req w st))
  = <[clientIP req :=
        recent (now w) 3600000 (rateLimitMap st) (clientIP req) ++ [now w]]>
      (rateLimitMap st)
  /\ status (response (handler env req w st)) <> 400
  /\ status (response (handler env req w st)) <> 429.
Proof.
  intros (Hb & Hv & Hr).
  rewrite (handler_valid _ _ _ _ Hb Hv). cbn zeta. rewrite Hr. cbn [negb].
  rewrite checkRateLimit_verdict in Hr. apply negb_true_iff, Z.leb_gt in Hr.
  rewrite checkRateLimit_allows by done. cbn [snd].
  destruct (env_missing _ || env_missing _); [done|].
  cbn [final response]. rewrite getTransporter_ledger. split; [done|].
  destruct (outcome _) as [|e]; [done|].
  destruct (handleError_status env e) as [E|E]; rewrite E; done.
Qed.

(** An answer of 500 or 503 is given only to a request that passed
    validation and the rate limit, and so after its time was recorded. *)
Lemma server_error_after_gate env req w st :
  status (response (handler env req w st)) = 500
  \/ status (response (handler env req w st)) = 503 ->
  passes_gate req w st.
Proof.
  intros Hs.
  destruct (handler_cases env req w st) as [Hb|[[Hb [reason Hv]]|[Hb Hv]]].
  - rewrite handler_bad_body in Hs by done. by destruct Hs.
  - rewrite (handler_invalid _ _ _ _ _ Hb Hv) in Hs. by destruct Hs.
  - split; [done|]. split; [done|].
    rewrite (handler_valid _ _ _ _ Hb Hv) in Hs. cbn zeta in Hs.
    destruct (fst (checkRateLimit _ _ _ _ _)); [done|]. by destruct Hs.
Qed.

End HandlerProperties.

(** ** The properties at sample requests *)

Section Samples.

Local Open Scope Z_scope.

(** Closed facts about the sample data are settled by evaluation. *)
Ltac by_evaluation := vm_compute; first [reflexivity | exact I | done].

Lemma valid_request_passes_gate :
  passes_gate valid_request (sample_world never_settles) fresh_state.
Proof. repeat split; by_evaluation. Qed.

Lemma sample_env_configured : configured sample_env.
Proof. split; by_evaluation. Qed.

Lemma send_timeout_answers_500_witness :
  passes_gate valid_request (sample_world never_settles) fresh_state
  /\ configured sample_env
  /\ timer_wins (sendMail (sample_world never_settles))
  /\ response (handler sample_env valid_request (sample_world never_settles)
                 fresh_state)
     = {| status := 500; success := false;
          message := u16 "Failed to send email. Please try again later.";
          error := None |}.
Proof.
  split; [exact valid_request_passes_gate|].
  split; [exact sample_env_configured|].
  split; [exact I|].
  exact (send_timeout_answers_500 sample_env valid_request
           (sample_world never_settles) fresh_state
           valid_request_passes_gate sample_env_configured I).
Defined.

(** C2, as stated, fails: with a one-letter name and no email address the
    first failing check in the stated order is the length of the name, and
    the handler answers that the email is required. *)
Lemma stated_order_not_followed :
  first_failing stated_order (extract (req_body short_name_no_email))
  = Some "Name must be at least 2 characters long"%string
  /\ response (handler sample_env short_name_no_email
                 (sample_world never_settles) fresh_state)
     = respond 400 false "Email is required".
Proof. split; by_evaluation. Qed.

Lemma handler_reports_first_failing_check_witness :
  body_is_object short_name_no_email
  /\ first_failing handler_order (extract (req_body short_name_no_email))
     = Some "Email is required"%string
  /\ handler sample_env short_name_no_email (sample_world never_settles) fresh_state
     = {| response := respond 400 false "Email is required";
          final := fresh_state; dispatched := None |}.
Proof.
  assert (Hb : body_is_object short_name_no_email) by (split; reflexivity).
  assert (Hf : first_failing handler_order (extract (req_body short_name_no_email))
               = Some "Email is required"%string) by (vm_compute; reflexivity).
  split; [exact Hb|]. split; [exact Hf|].
  exact (handler_reports_first_failing_check sample_env short_name_no_email
           (sample_world never_settles) fresh_state _ Hb Hf).
Defined.

Lemma validateEmail_accepts_the_shape_witness :
  (forall s, validateEmail (JStr s) = true
             <-> email_shape (toLowerCase (trim s))
                 /\ (length (toLowerCase (trim s)) <= 254)%nat)
  /\ (forall v, typeof v <> TString -> validateEmail v = false)
  /\ validateEmail (JStr (u16 "a@b.co")) = true
  /\ validateEmail (JStr (u16 "not-an-email")) = false
  /\ validateEmail (JStr (u16 "a@b." ++ repeat 99%N 260)) = false.
Proof. exact (@validateEmail_accepts_the_shape BasicLatinCase). Defined.




Lemma dispatch_only_within_bounds_witness :
  (present (extract (req_body valid_request))
   /\ in_bounds (extract (req_body valid_request)))
  /\ status (response (handler sample_env short_message_request
                         (sample_world delivered) fresh_state)) = 400
  /\ dispatched (handler sample_env short_message_request
                   (sample_world delivered) fresh_state) = None.
Proof.
  split.
  - apply (proj1 (dispatch_only_within_bounds sample_env valid_request
                    (sample_world delivered) fresh_state)).
    eexists. by_evaluation.
  - apply (proj2 (dispatch_only_within_bounds sample_env short_message_request
                    (sample_world delivered) fresh_state)).
    intros (_ & _ & Hlen & _). vm_compute in Hlen. lia.
Defined.

Lemma rejected_request_keeps_ledger_witness :
  status (response (handler sample_env short_message_request
                      (sample_world delivered) fresh_state)) = 400
  /\ final (handler sample_env short_message_request
              (sample_world delivered) fresh_state) = fresh_state
  /\ rateLimitMap (final (handler sample_env short_message_request
                            (sample_world delivered) fresh_state))
     = rateLimitMap fresh_state.
Proof.
  assert (Hs : status (response (handler sample_env short_message_request
                                   (sample_world delivered) fresh_state)) = 400)
    by (vm_compute; reflexivity).
  split; [exact Hs|].
  exact (rejected_request_keeps_ledger sample_env short_message_request
           (sample_world delivered) fresh_state Hs).
Defined.

Lemma failed_request_consumes_quota_witness :
  passes_gate valid_request (sample_world refused) fresh_state
  /\ status (response (handler sample_env valid_request (sample_world refused)
                         fresh_state)) = 503
  /\ rateLimitMap (final (handler sample_env valid_request (sample_world refused)
                            fresh_state))
     = <[clientIP valid_request :=
           recent (now (sample_world refused)) 3600000 (rateLimitMap fresh_state)
             (clientIP valid_request) ++ [now (sample_world refused)]]>
         (rateLimitMap fresh_state).
Proof.
  assert (Hg : passes_gate valid_request (sample_world refused) fresh_state)
    by (repeat split; vm_compute; reflexivity).
  split; [exact Hg|]. split; [vm_compute; reflexivity|].
  exact (proj1 (failed_request_consumes_quota sample_env valid_request
                  (sample_world refused) fresh_state Hg)).
Defined.

(** The end-to-end cases of the specification. *)
Example valid_request_delivered :
  response (handler sample_env valid_request (sample_world delivered) fresh_state)
  = respond 200 true "Email sent successfully! I will get back to you soon.".
Proof. by_evaluation. Qed.

Example short_message_refused :
  response (handler sample_env short_message_request (sample_world delivered)
              fresh_state)
  = respond 400 false "Message must be at least 10 characters long".
Proof. by_evaluation. Qed.

Example refused_connection_answers_503 :
  response (handler sample_env valid_request (sample_world refused) fresh_state)
  = respond 503 false "Service temporarily unavailable. Please try again later.".
Proof. by_evaluation. Qed.

Example missing_password_answers_500 :
  response (handler unconfigured_env valid_request (sample_world delivered)
              fresh_state)
  = respond 500 false "Server configuration error. Please try again later."
  /\ timestamps (rateLimitMap (final (handler unconfigured_env valid_request
                                        (sample_world delivered) fresh_state)))
       (clientIP valid_request)
     = [now (sample_world delivered)].
Proof. split; by_evaluation. Qed.

Example full_ledger_answers_429 :
  response (handler sample_env valid_request
              {| now := 60; sentOnHtml := []; sentOnText := [];
                 sendMail := delivered |}
              {| rateLimitMap := full_ledger; transporter := None |})
  = respond 429 false "Too many requests. Please try again later.".
Proof. by_evaluation. Qed.

(** The long address has the shape; it is refused for its length alone. *)
Example long_address_refused_for_length :
  test emailRegex (u16 "a@b." ++ repeat 99%N 260) = true
  /\ length (u16 "a@b." ++ repeat 99%N 260) = 264%nat.
Proof. split; by_evaluation. Qed.

(** The markup of the name reaches the text body only. *)
Example script_request_bodies :
  isInfix (u16 "<script>")
    (mail_html (buildMail sample_env (sample_world delivered)
                  (extract (req_body script_request)))) = false
  /\ isInfix (u16 "&lt;script&gt;")
       (mail_html (buildMail sample_env (sample_world delivered)
                     (extract (req_body script_request)))) = true
  /\ isInfix (u16 "<script>")
       (mail_text (buildMail sample_env (sample_world delivered)
                     (extract (req_body script_request)))) = true.
Proof. repeat split; by_evaluation. Qed.

(** After the window has passed, a sweep drops the client's entry. *)
Example sweep_drops_expired :
  sweep 3600060 full_ledger = ∅ /\ sweep 3600020 full_ledger
  = {[ u16 "203.0.113.7" := [30; 40; 50] ]}.
Proof. split; by_evaluation. Qed.

End Samples.

(** * Further properties of the code *)

(** ** The rate limiter and its sweep *)

Section RateLimiterMore.

Implicit Types (m : gmap (list N) (list Z)) (id : list N) (l : list Z).

Local Open Scope Z_scope.

Lemma recent_within now w m id :
  Forall (fun t => now - t < w) (recent now w m id).
Proof.
  apply Forall_forall. intros t Ht. unfold recent in Ht.
  by apply list_elem_of_filter in Ht as [Ht _].
Qed.

Lemma recent_same_timestamps now w m m' id :
  timestamps m' id = timestamps m id -> recent now w m' id = recent now w m id.
Proof. unfold recent. by intros ->. Qed.

(** The timestamps of every identifier after a call. *)
Lemma checkRateLimit_timestamps now id maxRequests w m id' :
  timestamps (snd (checkRateLimit now id maxRequests w m)) id'
  = if bool_decide (id' = id) && fst (checkRateLimit now id maxRequests w m)
    then recent now w m id ++ [now]
    else timestamps m id'.
Proof.
  destruct (fst (checkRateLimit now id maxRequests w m)) eqn:Hv.
  - rewrite checkRateLimit_verdict in Hv. apply negb_true_iff, Z.leb_gt in Hv.
    rewrite checkRateLimit_allows by done. cbn [snd].
    case_bool_decide as Hid; cbn [andb].
    + subst. apply timestamps_insert.
    + by apply timestamps_insert_ne.
  - rewrite andb_false_r. by apply checkRateLimit_denial_timestamps.
Qed.

(** X1: a call for one identifier leaves the entry of every other
    identifier as it is, and does not change the verdict of any call made
    for another identifier afterwards. *)
Theorem other_clients_unaffected now id maxRequests w m now' id' maxRequests' w' :
  id <> id' ->
  snd (checkRateLimit now id maxRequests w m) !! id' = m !! id'
  /\ fst (checkRateLimit now' id' maxRequests' w'
            (snd (checkRateLimit now id maxRequests w m)))
     = fst (checkRateLimit now' id' maxRequests' w' m).
Proof.
  intros Hne. split; [by apply checkRateLimit_others|].
  rewrite !checkRateLimit_verdict.
  rewrite (recent_same_timestamps now' w' m); [done|].
  rewrite checkRateLimit_timestamps.
  by rewrite bool_decide_eq_false_2.
Qed.

Lemma other_clients_unaffected_witness :
  snd (checkRateLimit 60 (u16 "203.0.113.7") 5 3600000 full_ledger)
    !! u16 "198.51.100.9" = full_ledger !! u16 "198.51.100.9"
  /\ fst (checkRateLimit 70 (u16 "198.51.100.9") 5 3600000
            (snd (checkRateLimit 60 (u16 "203.0.113.7") 5 3600000 full_ledger)))
     = fst (checkRateLimit 70 (u16 "198.51.100.9") 5 3600000 full_ledger).
Proof.
  apply (other_clients_unaffected 60 (u16 "203.0.113.7") 5 3600000 full_ledger
           70 (u16 "198.51.100.9") 5 3600000).
  discriminate.
Defined.

(** X2: after a call that allows the request, with a positive window, the
    entry of the identifier is its recent timestamps followed by the time
    of the call: every timestamp in it lies within the window and there
    are at most [maxRequests] of them. *)
Theorem allowed_call_entry now id maxRequests w m :
  fst (checkRateLimit now id maxRequests w m) = true ->
  0 < w ->
  snd (checkRateLimit now id maxRequests w m) !! id
  = Some (recent now w m id ++ [now])
  /\ Forall (fun t => now - t < w) (recent now w m id ++ [now])
  /\ Z.of_nat (length (recent now w m id ++ [now])) <= maxRequests.
Proof.
  intros Hv Hw. rewrite checkRateLimit_verdict in Hv.
  apply negb_true_iff, Z.leb_gt in Hv.
  rewrite checkRateLimit_allows by done. cbn [snd].
  split; [apply lookup_insert_eq|]. split.
  - apply Forall_app. split; [apply recent_within|].
    apply Forall_singleton. lia.
  - rewrite length_app. simpl. lia.
Qed.

Lemma allowed_call_entry_witness :
  snd (checkRateLimit 3600020 (u16 "203.0.113.7") 5 3600000 full_ledger)
    !! u16 "203.0.113.7"
  = Some (recent 3600020 3600000 full_ledger (u16 "203.0.113.7") ++ [3600020])
  /\ Forall (fun t => 3600020 - t < 3600000)
       (recent 3600020 3600000 full_ledger (u16 "203.0.113.7") ++ [3600020])
  /\ Z.of_nat (length (recent 3600020 3600000 full_ledger (u16 "203.0.113.7")
                       ++ [3600020])) <= 5.
Proof.
  apply allowed_call_entry; [vm_compute; reflexivity | lia].
Defined.

Lemma filter_since_recent lo now w l :
  now < lo + w ->
  filter (fun t => lo <= t) (filter (fun t => now - t < w) l)
  = filter (fun t => lo <= t) l.
Proof.
  intros Hnow. induction l as [|t l IH]; [done|].
  destruct (decide (lo <= t)) as [Hlo|Hlo].
  - rewrite (filter_cons_True (fun t => now - t < w)) by lia.
    rewrite !(filter_cons_True (fun t => lo <= t)) by done. by rewrite IH.
  - rewrite (filter_cons_False (fun t => lo <= t) t l) by done.
    destruct (decide (now - t < w)).
    + rewrite (filter_cons_True (fun t => now - t < w)) by done.
      by rewrite filter_cons_False.
    + by rewrite (filter_cons_False (fun t => now - t < w)).
Qed.

(** One call made at a time in [[lo, lo + w)]: an allowed call adds one
    to the timestamps since [lo], of which there were fewer than
    [maxRequests]; a denied call leaves them. *)
Lemma checkRateLimit_since lo now id maxRequests w m :
  lo <= now < lo + w ->
  if fst (checkRateLimit now id maxRequests w m)
  then Z.of_nat (length (since lo m id)) < maxRequests
       /\ since lo (snd (checkRateLimit now id maxRequests w m)) id
          = since lo m id ++ [now]
  else since lo (snd (checkRateLimit now id maxRequests w m)) id = since lo m id.
Proof.
  intros Hnow. unfold since. rewrite checkRateLimit_timestamps.
  rewrite bool_decide_eq_true_2 by done. cbn [andb].
  destruct (fst (checkRateLimit now id maxRequests w m)) eqn:Hv; [|done].
  rewrite checkRateLimit_verdict in Hv. apply negb_true_iff, Z.leb_gt in Hv.
  unfold recent in *. split.
  - pose proof (length_filter (fun t => lo <= t)
                  (filter (fun t => now - t < w) (timestamps m id))) as Hle.
    rewrite filter_since_recent in Hle by lia. lia.
  - rewrite filter_app, filter_since_recent by lia.
    by rewrite (filter_cons_True _ now) by lia.
Qed.

Lemma allowed_count_cons b bs :
  allowed_count (b :: bs) = ((if b then 1 else 0) + allowed_count bs)%nat.
Proof. unfold allowed_count. by destruct b. Qed.

Lemma allow_calls_bound lo id maxRequests w clock :
  Forall (fun now => lo <= now < lo + w) clock ->
  forall m,
    Z.of_nat (length (since lo m id)
              + allowed_count (fst (allow_calls id maxRequests w clock m)))
    <= Z.max (Z.of_nat (length (since lo m id))) maxRequests.
Proof.
  induction 1 as [|now clock Hnow _ IH]; intros m.
  - cbn. lia.
  - cbn [allow_calls].
    pose proof (checkRateLimit_since lo now id maxRequests w m Hnow) as Hstep.
    destruct (checkRateLimit now id maxRequests w m) as [ok m1].
    specialize (IH m1).
    destruct (allow_calls id maxRequests w clock m1) as [oks m2].
    cbn [fst snd] in *. rewrite allowed_count_cons.
    destruct ok.
    + destruct Hstep as [Hlt Hs]. rewrite Hs, length_app in IH. simpl in IH. lia.
    + rewrite Hstep in IH. lia.
Qed.

(** X3: of the calls made for one identifier at times that all lie in
    one interval [[lo, lo + windowMs)], at most [maxRequests] are allowed,
    whatever the ledger held before and in whatever order the clock
    readings come. *)
Theorem at_most_maxRequests_per_window lo id maxRequests w clock m :
  0 <= maxRequests ->
  Forall (fun now => lo <= now < lo + w) clock ->
  Z.of_nat (allowed_count (fst (allow_calls id maxRequests w clock m)))
  <= maxRequests.
Proof.
  intros Hmax Hclock.
  pose proof (allow_calls_bound lo id maxRequests w clock Hclock m) as Hb.
  destruct (Z.max_spec (Z.of_nat (length (since lo m id))) maxRequests)
    as [[_ E]|[_ E]]; rewrite E in Hb; lia.
Qed.

Lemma at_most_maxRequests_per_window_witness :
  Z.of_nat (allowed_count
              (fst (allow_calls (u16 "ip1") 2 1000 [5; 900; 20; 400; 999] ∅)))
  <= 2.
Proof.
  apply (at_most_maxRequests_per_window 0); [lia|].
  repeat (apply Forall_cons_2; [cbv beta; lia|]). apply Forall_nil_2.
Defined.

(** X4: once the window has passed since every timestamp held for an
    identifier, a call with [maxRequests] of at least 1 allows the request
    and the entry becomes the time of the call alone. *)
Theorem expired_entry_allows_again now id maxRequests w m :
  Forall (fun t => w <= now - t) (timestamps m id) ->
  1 <= maxRequests ->
  checkRateLimit now id maxRequests w m = (true, <[id := [now]]> m).
Proof.
  intros Hold Hmax.
  assert (R : recent now w m id = []).
  { unfold recent. apply filter_drops_all.
    eapply Forall_impl; [exact Hold|]. cbv beta. intros t Ht. lia. }
  rewrite checkRateLimit_allows; rewrite R; [done | simpl; lia].
Qed.

Lemma expired_entry_allows_again_witness :
  checkRateLimit 3600050 (u16 "203.0.113.7") 5 3600000 full_ledger
  = (true, <[u16 "203.0.113.7" := [3600050]]> full_ledger).
Proof.
  apply expired_entry_allows_again; [|lia].
  unfold timestamps, full_ledger. rewrite lookup_singleton_eq. cbn [default].
  repeat (apply Forall_cons_2; [cbv beta; lia|]). apply Forall_nil_2.
Defined.

End RateLimiterMore.

Section Sweep.

Implicit Types (m : gmap (list N) (list Z)) (id : list N) (l : list Z).

Local Open Scope Z_scope.

Lemma sweep_lookup now m id :
  sweep now m !! id
  = match recent now 3600000 m id with
    | [] => None
    | t :: l => Some (t :: l)
    end.
Proof.
  unfold sweep, recent, timestamps. rewrite lookup_omap.
  destruct (m !! id) as [l0|]; [|done]. cbn.
  by destruct (filter _ l0).
Qed.

Lemma sweep_timestamps now m id :
  timestamps (sweep now m) id = recent now 3600000 m id.
Proof.
  unfold timestamps at 1. rewrite sweep_lookup.
  by destruct (recent now 3600000 m id).
Qed.

Lemma filter_later now now' w l :
  now <= now' ->
  filter (fun t => now' - t < w) (filter (fun t => now - t < w) l)
  = filter (fun t => now' - t < w) l.
Proof.
  intros Hle. induction l as [|t l IH]; [done|].
  destruct (decide (now' - t < w)) as [Hin|Hout].
  - rewrite (filter_cons_True (fun t => now - t < w)) by lia.
    rewrite !(filter_cons_True (fun t => now' - t < w)) by done. by rewrite IH.
  - rewrite (filter_cons_False (fun t => now' - t < w) t l) by done.
    destruct (decide (now - t < w)).
    + rewrite (filter_cons_True (fun t => now - t < w)) by done.
      by rewrite filter_cons_False.
    + by rewrite (filter_cons_False (fun t => now - t < w)).
Qed.

Lemma recent_sweep now now' m id :
  now <= now' ->
  recent now' 3600000 (sweep now m) id = recent now' 3600000 m id.
Proof.
  intros Hle. unfold recent at 1. rewrite sweep_timestamps. unfold recent.
  by apply filter_later.
Qed.

(** Two ledgers that the rate limiter cannot tell apart for an identifier
    at the times of a list of calls give the same verdicts. *)
Lemma allow_calls_same_recent id maxRequests w clock :
  forall m1 m2,
    (forall now', now' ∈ clock -> recent now' w m1 id = recent now' w m2 id) ->
    fst (allow_calls id maxRequests w clock m1)
    = fst (allow_calls id maxRequests w clock m2).
Proof.
  induction clock as [|now clock IH]; intros m1 m2 Hsame; [done|].
  cbn [allow_calls].
  assert (Hv : fst (checkRateLimit now id maxRequests w m1)
               = fst (checkRateLimit now id maxRequests w m2)).
  { rewrite !checkRateLimit_verdict, Hsame; [done | apply list_elem_of_here]. }
  assert (Hnext : forall now', now' ∈ clock ->
            recent now' w (snd (checkRateLimit now id maxRequests w m1)) id
            = recent now' w (snd (checkRateLimit now id maxRequests w m2)) id).
  { intros now' Hin. unfold recent. rewrite !checkRateLimit_timestamps.
    rewrite bool_decide_eq_true_2 by done. cbn [andb]. rewrite <- Hv.
    destruct (fst (checkRateLimit now id maxRequests w m1)).
    - rewrite Hsame; [done | apply list_elem_of_here].
    - apply Hsame. by apply list_elem_of_further. }
  destruct (checkRateLimit now id maxRequests w m1) as [ok1 m1'].
  destruct (checkRateLimit now id maxRequests w m2) as [ok2 m2'].
  cbn [fst snd] in *. subst ok2. specialize (IH m1' m2' Hnext).
  destruct (allow_calls id maxRequests w clock m1') as [oks1 m1''].
  destruct (allow_calls id maxRequests w clock m2') as [oks2 m2''].
  cbn [fst] in *. by rewrite IH.
Qed.

(** X5: a sweep does not change what the rate limiter answers afterwards:
    the calls made for an identifier at any times not before the sweep get
    the same verdicts with the swept ledger as with the ledger as it was. *)
Theorem sweep_keeps_verdicts now m id maxRequests clock :
  Forall (fun now' => now <= now') clock ->
  fst (allow_calls id maxRequests 3600000 clock (sweep now m))
  = fst (allow_calls id maxRequests 3600000 clock m).
Proof.
  intros Hclock. rewrite Forall_forall in Hclock.
  apply allow_calls_same_recent.
  intros now' Hin. apply recent_sweep. by apply Hclock.
Qed.

Lemma sweep_keeps_verdicts_witness :
  fst (allow_calls (u16 "203.0.113.7") 5 3600000 [3600030; 3600040; 3600050]
         (sweep 3600020 full_ledger))
  = fst (allow_calls (u16 "203.0.113.7") 5 3600000 [3600030; 3600040; 3600050]
           full_ledger).
Proof.
  apply sweep_keeps_verdicts.
  repeat (apply Forall_cons_2; [cbv beta; lia|]). apply Forall_nil_2.
Defined.

(** X6: after a sweep, an identifier has an entry exactly when it has a
    timestamp within the hour before the sweep; the entry is then not
    empty and holds those timestamps and no other. *)
Theorem sweep_entries now m id :
  (forall l, sweep now m !! id = Some l ->
             l <> [] /\ l = recent now 3600000 m id
             /\ Forall (fun t => now - t < 3600000) l)
  /\ (sweep now m !! id = None <-> recent now 3600000 m id = []).
Proof.
  rewrite sweep_lookup. pose proof (recent_within now 3600000 m id) as Hin.
  destruct (recent now 3600000 m id) as [|t l0]; split.
  - intros l [=].
  - done.
  - intros l [= <-]. done.
  - split; intros [=].
Qed.

(** X7: sweeping again at the same or a later time gives the ledger that
    one sweep at the later time gives. *)
Theorem sweep_twice now now' m :
  now <= now' -> sweep now' (sweep now m) = sweep now' m.
Proof.
  intros Hle. apply map_eq. intros id.
  by rewrite !sweep_lookup, recent_sweep.
Qed.

Lemma sweep_twice_witness :
  sweep 3600040 (sweep 3600020 full_ledger) = sweep 3600040 full_ledger.
Proof. apply sweep_twice. lia. Defined.

End Sweep.

(** ** [sanitizeInput], [validateEmail] and [escapeHtml] *)

Section Helpers.

Context `{CaseMapping}.

Implicit Types (s : list N) (c : N).

(** X8: whatever the value, [sanitizeInput] returns at most 5000
    characters, with no whitespace at the start; the result can end in
    whitespace only when it is a full 5000 characters long, and it is empty
    for every value that is not a string. *)
Theorem sanitizeInput_result (v : JsValue) :
  (length (sanitizeInput v) <= MAX_INPUT)%nat
  /\ starts_with_space (sanitizeInput v) = false
  /\ (ends_with_space (sanitizeInput v) = true ->
      length (sanitizeInput v) = MAX_INPUT)
  /\ (typeof v <> TString -> sanitizeInput v = []).
Proof.
  split; [apply sanitizeInput_length|]. split; [apply sanitizeInput_starts|].
  split; [|by destruct v].
  destruct v as [| | | |s| |]; try discriminate.
  unfold sanitizeInput, substring0.
  destruct (decide (length (trim s) <= MAX_INPUT)%nat) as [Hshort|Hlong].
  - rewrite take_ge by done. by rewrite trim_ends.
  - intros _. rewrite length_take. lia.
Qed.

Lemma sanitizeInput_result_witness :
  length (sanitizeInput (JStr long_input)) = MAX_INPUT
  /\ sanitizeInput (JNum 42) = [].
Proof.
  split.
  - apply (proj1 (proj2 (proj2 (sanitizeInput_result (JStr long_input))))).
    vm_compute. reflexivity.
  - apply (proj2 (proj2 (proj2 (sanitizeInput_result (JNum 42))))).
    discriminate.
Defined.

Lemma trimStart_pad ws s :
  Forall (fun c => isWhiteSpace c = true) ws -> trimStart (ws ++ s) = trimStart s.
Proof. induction 1 as [|c ws Hc _ IH]; [done|]. simpl. by rewrite Hc. Qed.

Lemma trimEnd_pad s ws :
  Forall (fun c => isWhiteSpace c = true) ws -> trimEnd (s ++ ws) = trimEnd s.
Proof.
  intros Hws. unfold trimEnd. rewrite rev_app_distr, trimStart_pad; [done|].
  apply Forall_forall. intros c Hc. rewrite Forall_forall in Hws. apply Hws.
  apply list_elem_of_In. apply list_elem_of_In, in_rev in Hc. done.
Qed.

Lemma trim_pad ws1 s ws2 :
  Forall (fun c => isWhiteSpace c = true) ws1 ->
  Forall (fun c => isWhiteSpace c = true) ws2 ->
  trim (ws1 ++ s ++ ws2) = trim s.
Proof.
  intros H1 H2. unfold trim. rewrite trimStart_pad by done.
  induction s as [|c s IH].
  - cbn [app]. rewrite <- (app_nil_r ws2), trimStart_pad by done. done.
  - cbn [app trimStart]. destruct (isWhiteSpace c); [done|].
    change (c :: s ++ ws2) with ((c :: s) ++ ws2). by rewrite trimEnd_pad.
Qed.

(** The guard on the empty string changes nothing. *)
Lemma validateEmail_unguarded s :
  validateEmail (JStr s)
  = test emailRegex (toLowerCase (trim s))
    && (length (toLowerCase (trim s)) <=? 254)%nat.
Proof.
  unfold validateEmail, jslength. destruct s as [|c s]; [|done].
  cbn [str_falsy]. by rewrite trim_nil, toLowerCase_nil.
Qed.

(** X9: whitespace around an address is ignored: [validateEmail] gives the
    same answer for a string and for the string with whitespace added at
    either end. *)
Theorem validateEmail_ignores_padding ws1 s ws2 :
  Forall (fun c => isWhiteSpace c = true) ws1 ->
  Forall (fun c => isWhiteSpace c = true) ws2 ->
  validateEmail (JStr (ws1 ++ s ++ ws2)) = validateEmail (JStr s).
Proof.
  intros H1 H2. by rewrite !validateEmail_unguarded, trim_pad.
Qed.

Lemma count_plain_run s :
  Forall (fun c => plain c = true) s -> count_occ N.eq_dec s 64 = 0%nat.
Proof.
  induction 1 as [|c s Hc _ IH]; [done|].
  rewrite count_occ_cons_neq; [done|].
  intros ->. by vm_compute in Hc.
Qed.

(** X10: an address that [validateEmail] accepts has, once trimmed and in
    lower case, exactly one at sign, no whitespace, and between 5 and 254
    characters. *)
Theorem accepted_address s :
  validateEmail (JStr s) = true ->
  count_occ N.eq_dec (toLowerCase (trim s)) 64 = 1%nat
  /\ Forall (fun c => isWhiteSpace c = false) (toLowerCase (trim s))
  /\ (5 <= length (toLowerCase (trim s)) <= 254)%nat.
Proof.
  intros Hv. apply validateEmail_string in Hv as [Hshape Hlen].
  destruct Hshape as (l & d & t & E & [Hl Pl] & [Hd Pd] & [Ht Pt]).
  rewrite E in *. split; [|split].
  - rewrite !count_occ_app.
    rewrite (count_plain_run l), (count_plain_run d), (count_plain_run t) by done.
    reflexivity.
  - assert (Hp : forall r, Forall (fun c => plain c = true) r ->
                           Forall (fun c => isWhiteSpace c = false) r).
    { intros r Hr. eapply Forall_impl; [exact Hr|]. intros c Hc. unfold plain in Hc.
      apply andb_true_iff in Hc as [Hc _]. by apply negb_true_iff in Hc. }
    rewrite !Forall_app. repeat split; auto; by apply Forall_singleton.
  - split; [|done]. rewrite !length_app. simpl.
    destruct l; [done|]. destruct d; [done|]. destruct t; [done|]. simpl. lia.
Qed.

End Helpers.

Section EscapingMore.

Implicit Types (s : list N) (c : N).

Lemma escapeHtml_cons c s : escapeHtml (c :: s) = entity c ++ escapeHtml s.
Proof. by rewrite !escapeHtml_entities. Qed.

(** An entity is written for the five characters and for no other. *)
Lemma entity_plain c : escape_class c = false -> entity c = [c].
Proof.
  intros Hc. rewrite <- escape_entity. by rewrite Hc.
Qed.

Lemma escape_class_cases c :
  escape_class c = true -> c = 38 \/ c = 60 \/ c = 62 \/ c = 34 \/ c = 39.
Proof.
  unfold escape_class. cbn. rewrite !orb_true_iff, !N.eqb_eq.
  intros [?|[?|[?|[?|[?|[=]]]]]]; auto.
Qed.

Lemma entity_special c :
  escape_class c = true -> (4 <= length (entity c))%nat.
Proof.
  intros Hc.
  destruct (escape_class_cases c Hc) as [->|[->|[->|[->| ->]]]]; vm_compute; lia.
Qed.

Lemma strip_app p s : strip p (p ++ s) = Some s.
Proof. induction p as [|a p IH]; [done|]. simpl. by rewrite N.eqb_refl. Qed.

Lemma read_entity_special c s :
  escape_class c = true -> read_entity (entity c ++ s) = Some (c, s).
Proof.
  intros Hc.
  destruct (escape_class_cases c Hc) as [->|[->|[->|[->| ->]]]]; reflexivity.
Qed.

Lemma read_entity_plain c s :
  escape_class c = false -> read_entity (c :: s) = None.
Proof.
  intros Hc. assert (Hne : (38 =? c) = false).
  { unfold escape_class in Hc. cbn [existsb app u16] in Hc.
    apply orb_false_iff in Hc as [Hc _]. rewrite N.eqb_sym. exact Hc. }
  assert (Hs : forall p, strip (38 :: p) (c :: s) = None)
    by (intros p; cbn [strip]; by rewrite Hne).
  unfold read_entity.
  change (u16 "&amp;") with (38 :: u16 "amp;").
  change (u16 "&lt;") with (38 :: u16 "lt;").
  change (u16 "&gt;") with (38 :: u16 "gt;").
  change (u16 "&quot;") with (38 :: u16 "quot;").
  change (u16 "&#039;") with (38 :: u16 "#039;").
  by rewrite !Hs.
Qed.

Lemma unescape_steps_escapeHtml s :
  forall n, (length (escapeHtml s) <= n)%nat ->
            unescape_steps n (escapeHtml s) = s.
Proof.
  induction s as [|c s IH]; intros n Hn.
  - by destruct n.
  - rewrite escapeHtml_cons in *. rewrite length_app in Hn.
    destruct (escape_class c) eqn:Hc.
    + pose proof (entity_special c Hc) as Hlen.
      destruct n as [|n]; [lia|].
      destruct (entity c) as [|e es] eqn:He; [simpl in Hlen; lia|].
      cbn [app unescape_steps]. change (e :: es ++ escapeHtml s) with ((e :: es) ++ escapeHtml s).
      rewrite <- He, read_entity_special by done. f_equal. apply IH.
      simpl in Hlen, Hn. lia.
    + rewrite entity_plain in * by done. destruct n as [|n]; [simpl in Hn; lia|].
      cbn [app unescape_steps]. rewrite read_entity_plain by done.
      f_equal. apply IH. simpl in Hn. lia.
Qed.

(** X11: none of the two angle brackets, the quotation mark and the
    apostrophe occurs in what [escapeHtml] returns. *)
Theorem escapeHtml_no_markup s :
  Forall (fun c => c <> 60 /\ c <> 62 /\ c <> 34 /\ c <> 39) (escapeHtml s).
Proof. rewrite escapeHtml_entities. apply html_escaped_no_markup. Qed.

Lemma escapeHtml_length s : (length s <= length (escapeHtml s))%nat.
Proof.
  induction s as [|c s IH]; [done|].
  rewrite escapeHtml_cons, length_app. destruct (escape_class c) eqn:Hc.
  - pose proof (entity_special c Hc). cbn [length]. lia.
  - rewrite entity_plain by done. cbn [length]. lia.
Qed.

(** X12: [escapeHtml] returns its argument as it is exactly when none of
    the five characters occurs in it; it never returns a shorter string. *)
Theorem escapeHtml_fixed_points s :
  (escapeHtml s = s <-> Forall (fun c => escape_class c = false) s)
  /\ (length s <= length (escapeHtml s))%nat.
Proof.
  split; [|apply escapeHtml_length]. split.
  - intros E. apply (f_equal length) in E. induction s as [|c s IH]; [done|].
    rewrite escapeHtml_cons, length_app in E.
    pose proof (escapeHtml_length s) as Hs.
    destruct (escape_class c) eqn:Hc.
    + pose proof (entity_special c Hc). cbn [length] in E. lia.
    + rewrite entity_plain in E by done. cbn [length] in E.
      apply Forall_cons_2; [done|]. apply IH. lia.
  - induction 1 as [|c s Hc _ IH]; [done|].
    by rewrite escapeHtml_cons, entity_plain, IH.
Qed.

(** X13: reading the five entities back gives the escaped text again, so
    two different texts are never escaped to the same string. *)
Theorem escapeHtml_read_back s :
  unescapeHtml (escapeHtml s) = s
  /\ (forall s', escapeHtml s' = escapeHtml s -> s' = s).
Proof.
  assert (Hback : forall r, unescapeHtml (escapeHtml r) = r)
    by (intros r; by apply unescape_steps_escapeHtml).
  split; [apply Hback|].
  intros s' E. by rewrite <- (Hback s'), E.
Qed.

End EscapingMore.

(** ** More on the handler *)

Section HandlerMore.

Context `{CaseMapping}.

Implicit Types (env : ProcessEnv) (req : Request) (w : World) (st : State).

Local Open Scope Z_scope.

(** How a race against a timer that rejects ends. *)
Lemma race_outcome ms e p :
  (fulfilled_within ms p
   /\ outcome (promise_race p (rejectAfter ms e)) = Fulfilled)
  \/ (~ fulfilled_within ms p
      /\ exists e', outcome (promise_race p (rejectAfter ms e)) = Rejected e').
Proof.
  unfold promise_race, fulfilled_within. cbn [settles_at rejectAfter].
  destruct (settles_at p) as [a|] eqn:Ea.
  - destruct (Z.leb_spec a ms) as [Hle|Hgt].
    + destruct (outcome p) as [|e'] eqn:Eo.
      * left. split; [|done]. by exists a.
      * right. split; [|by exists e']. intros (t & _ & _ & [=]).
    + right. split; [|by exists e]. intros (t & [= <-] & Ht & _). lia.
  - right. split; [|by exists e]. intros (t & [=] & _).
Qed.

Lemma withLedger_same st : withLedger st (rateLimitMap st) = st.
Proof. by destruct st. Qed.

(** A denial by the handler's call of the rate limiter leaves the ledger. *)
Lemma handler_denial_ledger now id m :
  fst (checkRateLimit now id 5 3600000 m) = false ->
  snd (checkRateLimit now id 5 3600000 m) = m.
Proof.
  rewrite checkRateLimit_verdict. intros Hv. apply negb_false_iff, Z.leb_le in Hv.
  rewrite checkRateLimit_denies by done. cbn [snd].
  unfold recent, timestamps in Hv. destruct (m !! id); [done|].
  simpl in Hv. lia.
Qed.

(** X14: the handler answers with one of the statuses 200, 400, 429, 500
    and 503, and [success] is true exactly when the status is 200. *)
Theorem handler_statuses env req w st :
  status (response (handler env req w st)) ∈ [200; 400; 429; 500; 503]
  /\ (success (response (handler env req w st)) = true
      <-> status (response (handler env req w st)) = 200).
Proof.
  destruct (handler_cases env req w st) as [Hb|[[Hb [reason Hv]]|[Hb Hv]]].
  - rewrite handler_bad_body by done. cbn. split; [set_solver | done].
  - rewrite (handler_invalid _ _ _ _ _ Hb Hv). cbn. split; [set_solver | done].
  - rewrite (handler_valid _ _ _ _ Hb Hv). cbn zeta.
    destruct (negb _); [cbn; split; [set_solver | done]|].
    destruct (env_missing _ || env_missing _); [cbn; split; [set_solver | done]|].
    cbn [response]. destruct (outcome _) as [|e]; [cbn; split; [set_solver | done]|].
    unfold handleError.
    destruct (bool_decide (err_code e = _)); [cbn; split; [set_solver | done]|].
    destruct (bool_decide _ || bool_decide _); cbn; (split; [set_solver | done]).
Qed.

(** X15: a request answered 429 leaves the whole module state as it was
    and hands nothing to [sendMail]; the client then has five or more
    timestamps within the hour. *)
Theorem limited_request_keeps_state env req w st :
  status (response (handler env req w st)) = 429 ->
  final (handler env req w st) = st
  /\ dispatched (handler env req w st) = None
  /\ (5 <= length (recent (now w) 3600000 (rateLimitMap st) (clientIP req)))%nat.
Proof.
  destruct (handler_cases env req w st) as [Hb|[[Hb [reason Hv]]|[Hb Hv]]].
  - by rewrite handler_bad_body.
  - by rewrite (handler_invalid _ _ _ _ _ Hb Hv).
  - rewrite (handler_valid _ _ _ _ Hb Hv). cbn zeta.
    destruct (fst (checkRateLimit _ _ _ _ _)) eqn:Hr; cbn [negb].
    + destruct (env_missing _ || env_missing _); [done|].
      cbn [response]. destruct (outcome _) as [|e]; [done|].
      destruct (handleError_status env e) as [E|E]; rewrite E; done.
    + intros _. cbn [final dispatched].
      rewrite handler_denial_ledger, withLedger_same by done.
      split; [done|]. split; [done|].
      rewrite checkRateLimit_verdict in Hr.
      apply negb_false_iff, Z.leb_le in Hr. lia.
Qed.

(** X16: unless [NODE_ENV] is [development], no response carries an
    [error] field. *)
Theorem error_detail_only_in_development env req w st :
  NODE_ENV env <> Some (u16 "development") ->
  error (response (handler env req w st)) = None.
Proof.
  intros Hprod.
  destruct (handler_cases env req w st) as [Hb|[[Hb [reason Hv]]|[Hb Hv]]].
  - by rewrite handler_bad_body.
  - by rewrite (handler_invalid _ _ _ _ _ Hb Hv).
  - rewrite (handler_valid _ _ _ _ Hb Hv). cbn zeta.
    destruct (negb _); [done|]. destruct (env_missing _ || env_missing _); [done|].
    cbn [response]. destruct (outcome _) as [|e]; [done|].
    unfold handleError. rewrite (bool_decide_eq_false_2 (NODE_ENV env = _)) by done.
    destruct (bool_decide (err_code e = _)); [done|].
    by destruct (bool_decide _ || bool_decide _).
Qed.

(** X17: the handler answers 200 exactly when the request passes
    validation and the rate limit, both credentials are set, and the send
    is fulfilled no later than 30000 ms after it starts. *)
Theorem success_exactly_when_sent env req w st :
  status (response (handler env req w st)) = 200
  <-> passes_gate req w st /\ configured env
      /\ fulfilled_within SEND_TIMEOUT_MS (sendMail w).
Proof.
  unfold passes_gate, configured. split.
  - destruct (handler_cases env req w st) as [Hb|[[Hb [reason Hv]]|[Hb Hv]]].
    + by rewrite handler_bad_body.
    + by rewrite (handler_invalid _ _ _ _ _ Hb Hv).
    + rewrite (handler_valid _ _ _ _ Hb Hv). cbn zeta.
      destruct (fst (checkRateLimit _ _ _ _ _)); [|done]. cbn [negb].
      destruct (env_missing (GMAIL_EMAIL env)); [done|].
      destruct (env_missing (GMAIL_PASSWORD env)); [done|].
      cbn [orb response].
      destruct (race_outcome SEND_TIMEOUT_MS timeoutError (sendMail w))
        as [[Hf ->]|[_ [e ->]]]; [done|].
      destruct (handleError_status env e) as [E|E]; rewrite E; done.
  - intros ((Hb & Hv & Hr) & (He & Hp) & Hf).
    rewrite (handler_valid _ _ _ _ Hb Hv). cbn zeta. rewrite Hr, He, Hp.
    cbn [negb orb response].
    destruct (race_outcome SEND_TIMEOUT_MS timeoutError (sendMail w))
      as [[_ ->]|[Hn _]]; done.
Qed.

(** The length of the message the handler holds. *)
Lemma extract_message_length body :
  (length (f_message (extract body)) <= 5000)%nat.
Proof.
  unfold extract. cbn [f_message].
  etrans; [apply trim_length | apply sanitizeInput_length].
Qed.

(** X18: the test [message.length > 5000] never fires: no response says
    that the message must be less than 5000 characters, since
    [sanitizeInput] has already cut the message. *)
Theorem message_too_long_never_answered env req w st :
  message (response (handler env req w st))
  <> u16 "Message must be less than 5000 characters".
Proof.
  destruct (handler_cases env req w st) as [Hb|[[Hb [reason Hv]]|[Hb Hv]]].
  - rewrite handler_bad_body by done. by vm_compute.
  - rewrite (handler_invalid _ _ _ _ _ Hb Hv). cbn [response message respond].
    pose proof (extract_message_length (req_body req)) as Hlen.
    unfold validate, jslength in Hv.
    repeat match type of Hv with
           | (if ?b then Some _ else _) = Some _ =>
               destruct b eqn:?; [injection Hv as <-; by vm_compute|]
           end.
    destruct (5000 <? length (f_message (extract (req_body req))))%nat eqn:Hlong;
      [apply Nat.ltb_lt in Hlong; lia | discriminate].
  - rewrite (handler_valid _ _ _ _ Hb Hv). cbn zeta.
    destruct (negb _); [by vm_compute|].
    destruct (env_missing _ || env_missing _); [by vm_compute|].
    cbn [response]. destruct (outcome _) as [|e]; [by vm_compute|].
    unfold handleError.
    destruct (bool_decide (err_code e = _)); [by vm_compute|].
    destruct (bool_decide _ || bool_decide _); by vm_compute.
Qed.

End HandlerMore.

Section Dispatch.

Context `{CaseMapping}.

Implicit Types (env : ProcessEnv) (req : Request) (w : World) (st : State).

Local Open Scope Z_scope.

Lemma dispatched_configured env req w st :
  is_Some (dispatched (handler env req w st)) ->
  passes_gate req w st /\ configured env.
Proof.
  unfold passes_gate, configured.
  destruct (handler_cases env req w st) as [Hb|[[Hb [reason Hv]]|[Hb Hv]]].
  - rewrite handler_bad_body by done. by intros [? [=]].
  - rewrite (handler_invalid _ _ _ _ _ Hb Hv). by intros [? [=]].
  - rewrite (handler_valid _ _ _ _ Hb Hv). cbn zeta.
    destruct (fst (checkRateLimit _ _ _ _ _)); cbn [negb]; [|by intros [? [=]]].
    destruct (env_missing (GMAIL_EMAIL env)); [by intros [? [=]]|].
    destruct (env_missing (GMAIL_PASSWORD env)); [by intros [? [=]]|].
    done.
Qed.

Lemma env_get_present x : env_missing x = false -> env_get x <> [].
Proof. destruct x as [[|c s]|]; done. Qed.

(** X19: every message handed to [sendMail] goes from and to the address
    in [GMAIL_EMAIL], which is not empty; its reply-to address is the
    submitter's address, in lower case, and passes [validateEmail]; its
    subject carries the name with the five characters as entities. *)
Theorem dispatched_headers env req w st m :
  dispatched (handler env req w st) = Some m ->
  mail_from m = env_get (GMAIL_EMAIL env)
  /\ mail_to m = env_get (GMAIL_EMAIL env)
  /\ env_get (GMAIL_EMAIL env) <> []
  /\ mail_replyTo m = f_email (extract (req_body req))
  /\ validateEmail (JStr (mail_replyTo m)) = true
  /\ mail_subject m
     = u16 "New Portfolio Contact from "
       ++ html_escaped (f_name (extract (req_body req))).
Proof.
  intros Hd.
  destruct (dispatched_configured env req w st) as [_ [He _]]; [by rewrite Hd|].
  apply dispatched_mail in Hd as [(_ & Hvalid & _) ->].
  unfold buildMail. cbn. rewrite escapeHtml_entities.
  repeat split; try done. by apply env_get_present.
Qed.

(** X20: once [getTransporter] has built a transporter it keeps it: the
    state it leaves holds the transporter and the same ledger, and every
    later call returns that transporter and leaves the state alone,
    whatever the environment has become. *)
Theorem getTransporter_caches env st t st' :
  getTransporter env st = (inr t, st') ->
  transporter st' = Some t
  /\ rateLimitMap st' = rateLimitMap st
  /\ forall env', getTransporter env' st' = (inr t, st').
Proof.
  unfold getTransporter. destruct (transporter st) as [t0|] eqn:Et.
  - intros [= <- <-]. rewrite Et. done.
  - destruct (env_missing _ || env_missing _); [discriminate|].
    intros [= <- <-]. done.
Qed.

(** The first call fails, and changes nothing, when a credential is
    missing and no transporter has been built. *)
Lemma getTransporter_throws env st :
  transporter st = None ->
  ~ configured env ->
  exists e, getTransporter env st = (inl e, st).
Proof.
  unfold getTransporter, configured. intros -> Hc.
  destruct (env_missing (GMAIL_EMAIL env)), (env_missing (GMAIL_PASSWORD env));
    cbn [orb]; eauto. by destruct Hc.
Qed.

Lemma dispatched_for_cons id req w reqs r rs :
  dispatched_for id ((req, w) :: reqs) (r :: rs)
  = ((if bool_decide (clientIP req = id /\ is_Some (dispatched r)) then 1 else 0)
     + dispatched_for id reqs rs)%nat.
Proof.
  unfold dispatched_for. cbn [zip zip_with].
  case_bool_decide as Hd.
  - by rewrite filter_cons_True.
  - by rewrite filter_cons_False.
Qed.

(** One run at a time in [[lo, lo + 3600000)]: the client's timestamps
    since [lo] do not decrease, and a run that hands a message to
    [sendMail] for the client found fewer than five and adds one. *)
Lemma handler_since lo id env req w st :
  lo <= now w < lo + 3600000 ->
  (length (since lo (rateLimitMap st) id)
   <= length (since lo (rateLimitMap (final (handler env req w st))) id))%nat
  /\ (clientIP req = id ->
      is_Some (dispatched (handler env req w st)) ->
      (length (since lo (rateLimitMap st) id) < 5)%nat
      /\ length (since lo (rateLimitMap (final (handler env req w st))) id)
         = S (length (since lo (rateLimitMap st) id))).
Proof.
  intros Hnow.
  destruct (handler_cases env req w st) as [Hb|[[Hb [reason Hv]]|[Hb Hv]]].
  - rewrite handler_bad_body by done. cbn. split; [done|]. by intros _ [? [=]].
  - rewrite (handler_invalid _ _ _ _ _ Hb Hv). cbn.
    split; [done|]. by intros _ [? [=]].
  - rewrite (handler_valid _ _ _ _ Hb Hv). cbn zeta.
    assert (Hledger : forall r,
              rateLimitMap (final r)
              = snd (checkRateLimit (now w) (clientIP req) 5 3600000
                       (rateLimitMap st)) ->
              (length (since lo (rateLimitMap st) id)
               <= length (since lo (rateLimitMap (final r)) id))%nat
              /\ (clientIP req = id ->
                  fst (checkRateLimit (now w) (clientIP req) 5 3600000
                         (rateLimitMap st)) = true ->
                  (length (since lo (rateLimitMap st) id) < 5)%nat
                  /\ length (since lo (rateLimitMap (final r)) id)
                     = S (length (since lo (rateLimitMap st) id)))).
    { intros r ->. destruct (decide (clientIP req = id)) as [<-|Hne].
      - pose proof (checkRateLimit_since lo (now w) (clientIP req) 5 3600000
                      (rateLimitMap st) Hnow) as Hs.
        destruct (fst (checkRateLimit _ _ _ _ _)).
        + destruct Hs as [Hlt ->]. rewrite length_app. cbn [length].
          split; [lia|]. intros _ _. lia.
        + rewrite Hs. split; [done|]. by intros _ [=].
      - unfold since. rewrite checkRateLimit_timestamps.
        rewrite bool_decide_eq_false_2 by done. cbn [andb].
        split; [done|]. by intros E. }
    destruct (fst (checkRateLimit _ _ _ _ _)) eqn:Hr; cbn [negb].
    + destruct (env_missing _ || env_missing _).
      * destruct (Hledger {| response := respond 500 false "";
                             final := withLedger st _; dispatched := None |}
                    eq_refl) as [Hle _].
        cbn [final dispatched] in *. split; [exact Hle|]. by intros _ [? [=]].
      * cbn [final dispatched].
        destruct (Hledger {| response := respond 500 false "";
                             final := snd (getTransporter env (withLedger st _));
                             dispatched := None |}
                    (getTransporter_ledger _ _)) as [Hle Hd].
        cbn [final] in *. split; [exact Hle|]. intros Hid _. by apply Hd.
    + destruct (Hledger {| response := respond 500 false "";
                           final := withLedger st _; dispatched := None |}
                  eq_refl) as [Hle _].
      cbn [final dispatched] in *. split; [exact Hle|]. by intros _ [? [=]].
Qed.

Lemma serve_bound lo id env reqs :
  Forall (fun p => lo <= now (snd p) < lo + 3600000) reqs ->
  forall st,
    (length (since lo (rateLimitMap st) id)
     + dispatched_for id reqs (fst (serve env reqs st))
     <= Nat.max (length (since lo (rateLimitMap st) id)) 5)%nat.
Proof.
  induction 1 as [|[req w] reqs Hnow _ IH]; intros st.
  - cbn. lia.
  - cbn [serve]. cbn [snd] in Hnow.
    destruct (handler_since lo id env req w st Hnow) as [Hle Hd].
    specialize (IH (final (handler env req w st))).
    destruct (serve env reqs (final (handler env req w st))) as [rs st'].
    cbn [fst] in *. rewrite dispatched_for_cons.
    case_bool_decide as Hdisp.
    + destruct Hdisp as [Hid Hsome]. destruct (Hd Hid Hsome) as [Hlt Hs]. lia.
    + lia.
Qed.

(** X21: of the requests that arrive at times lying in one interval of an
    hour, whatever clients send them and whatever the state was before, at
    most five of one client's have a message handed to [sendMail]. *)
Theorem at_most_five_dispatched_per_hour lo id env reqs st :
  Forall (fun p => lo <= now (snd p) < lo + 3600000) reqs ->
  (dispatched_for id reqs (fst (serve env reqs st)) <= 5)%nat.
Proof.
  intros Hreqs. pose proof (serve_bound lo id env reqs Hreqs st). lia.
Qed.

End Dispatch.

(** ** The SendGrid variant *)

Section SendGridProperties.

Context `{CaseMapping}.

Implicit Types (env : SendGrid.ProcessEnv) (req : Request) (w : World)
  (m : gmap (list N) (list Z)) (f : Fields).

Local Open Scope Z_scope.

Lemma sendgrid_validate_in_bounds f : SendGrid.validate f = None <-> in_bounds f.
Proof.
  unfold SendGrid.validate, in_bounds, jslength. split.
  - destruct (str_falsy (f_name f)); [done|].
    destruct (length (f_name f) <? 2)%nat eqn:Hn1; [done|].
    destruct (100 <? length (f_name f))%nat eqn:Hn2; [done|]. cbn [orb].
    destruct (validateEmail (JStr (f_email f))); [|done]. cbn [negb].
    destruct (str_falsy (f_message f)); [done|].
    destruct (length (f_message f) <? 10)%nat eqn:Hm1; [done|].
    destruct (5000 <? length (f_message f))%nat eqn:Hm2; [done|].
    intros _. apply Nat.ltb_ge in Hn1, Hn2, Hm1, Hm2. repeat split; first [done | lia].
  - intros ((Hn1 & Hn2) & He & (Hm1 & Hm2)).
    destruct (f_name f) as [|? ?] eqn:En; [simpl in Hn1; lia|].
    destruct (f_message f) as [|? ?] eqn:Em; [simpl in Hm1; lia|].
    cbn [str_falsy orb]. rewrite He. cbn [negb].
    by rewrite !(proj2 (Nat.ltb_ge _ _)) by lia.
Qed.

(** X22: the two variants of the route accept the same fields: the
    validation of the SendGrid variant passes exactly when that of the
    Gmail variant does, which is when the fields are within bounds. *)
Theorem variants_accept_the_same_fields f :
  (SendGrid.validate f = None <-> validate f = None)
  /\ (SendGrid.validate f = None <-> in_bounds f).
Proof.
  split; [|apply sendgrid_validate_in_bounds].
  by rewrite sendgrid_validate_in_bounds, validate_in_bounds.
Qed.

Lemma sendgrid_cases env req w m :
  (SendGrid.dispatched (SendGrid.handler env req w m) = None
   /\ SendGrid.final (SendGrid.handler env req w m)
      = (if bool_decide (status (SendGrid.response (SendGrid.handler env req w m))
                         = 400)
         then m
         else snd (checkRateLimit (now w) (clientIP req) 5 3600000 m))
   /\ (status (SendGrid.response (SendGrid.handler env req w m)) = 400
       \/ (in_bounds (SendGrid.extract (req_body req))
           /\ status (SendGrid.response (SendGrid.handler env req w m))
              ∈ [429; 500])))
  \/ (in_bounds (SendGrid.extract (req_body req))
      /\ SendGrid.dispatched (SendGrid.handler env req w m)
         = Some (SendGrid.buildMail env w (SendGrid.extract (req_body req)))
      /\ SendGrid.response (SendGrid.handler env req w m)
         = match outcome (promise_race (sendMail w)
                            (rejectAfter SendGrid.SEND_TIMEOUT_MS
                               SendGrid.timeoutError)) with
           | Fulfilled =>
               respond 200 true
                 "Email sent successfully! I will get back to you soon."
           | Rejected e => SendGrid.handleError env e
           end).
Proof.
  unfold SendGrid.handler.
  destruct (falsy _ || negb _); [left; cbn; auto|].
  destruct (SendGrid.validate _) as [reason|] eqn:Hv; [left; cbn; auto|].
  apply sendgrid_validate_in_bounds in Hv.
  destruct (checkRateLimit _ _ _ _ _) as [allowed ledger].
  destruct allowed; cbn [negb]; [|left; cbn; split; [done|]; split; [done|];
                                  right; split; [done | set_solver]].
  destruct (env_missing _ || env_missing _);
    [left; cbn; split; [done|]; split; [done|]; right; split; [done | set_solver]|].
  right. split; [done|]. by destruct (outcome _).
Qed.

(** X23: in the SendGrid variant a send that is not fulfilled within
    60000 ms, whether it is rejected or the timer fires first, is answered
    503 with the unavailable-service message. *)
Theorem sendgrid_failed_send_answers_503 env req w m :
  is_Some (SendGrid.dispatched (SendGrid.handler env req w m)) ->
  ~ fulfilled_within SendGrid.SEND_TIMEOUT_MS (sendMail w) ->
  status (SendGrid.response (SendGrid.handler env req w m)) = 503
  /\ success (SendGrid.response (SendGrid.handler env req w m)) = false
  /\ message (SendGrid.response (SendGrid.handler env req w m))
     = u16 "Email service temporarily unavailable.".
Proof.
  intros Hd Hn.
  destruct (sendgrid_cases env req w m) as [(Hnone & _)|(_ & _ & ->)].
  - rewrite Hnone in Hd. by destruct Hd.
  - destruct (race_outcome SendGrid.SEND_TIMEOUT_MS SendGrid.timeoutError
                (sendMail w)) as [[Hf _]|[_ [e ->]]]; done.
Qed.

(** X24: in the SendGrid variant a message is handed to [sgMail.send] only
    when the fields, as this variant holds them, are within bounds; a
    request with a field out of bounds is answered 400, hands nothing over
    and leaves the ledger as it was. *)
Theorem sendgrid_dispatch_only_within_bounds env req w m :
  (is_Some (SendGrid.dispatched (SendGrid.handler env req w m)) ->
   in_bounds (SendGrid.extract (req_body req)))
  /\ (~ in_bounds (SendGrid.extract (req_body req)) ->
      status (SendGrid.response (SendGrid.handler env req w m)) = 400
      /\ SendGrid.dispatched (SendGrid.handler env req w m) = None
      /\ SendGrid.final (SendGrid.handler env req w m) = m).
Proof.
  destruct (sendgrid_cases env req w m)
    as [(Hnone & Hfin & [Hs|[Hin Hs]])|(Hin & Hd & _)].
  - split; [rewrite Hnone; by intros [? [=]]|]. intros _.
    by rewrite Hfin, Hs.
  - split; [done|]. by intros [].
  - split; [done|]. by intros [].
Qed.

End SendGridProperties.

(** ** The server *)

Section ServerProperties.

Implicit Types (u : list N) (env : Server.ProcessEnv).

Lemma endsWith_slash_app u : Server.endsWith (u16 "/") (u ++ u16 "/") = true.
Proof.
  unfold Server.endsWith. rewrite rev_app_distr. cbn. by rewrite N.eqb_refl.
Qed.

Lemma dropLast_app u c : Server.dropLast (u ++ [c]) = u.
Proof.
  unfold Server.dropLast. rewrite length_app. cbn [length].
  replace (length u + 1 - 1)%nat with (length u) by lia.
  by rewrite take_app_length.
Qed.

(** X25: a URL that does not end in a slash is left as it is by
    [normalizeUrl], and the same URL with a slash added normalizes to it:
    the two spellings give the same string. *)
Theorem normalizeUrl_trailing_slash u :
  Server.endsWith (u16 "/") u = false ->
  Server.normalizeUrl (Some u) = u
  /\ Server.normalizeUrl (Some (u ++ u16 "/")) = u.
Proof.
  intros Hu. unfold Server.normalizeUrl. split.
  - rewrite Hu. by destruct u.
  - rewrite endsWith_slash_app.
    change (u16 "/") with [47]. rewrite dropLast_app. by destruct u.
Qed.

(** X26: the CORS policy allows every request that carries no origin and
    the origin given by [CLIENT_URL] with its trailing slash removed,
    whatever the mode; when [NODE_ENV] is not set it allows every origin,
    since the mode then defaults to development; in any other mode than
    development it refuses an origin that is not in the list. *)
Theorem cors_policy env :
  Server.corsOrigin env None = Server.Allow
  /\ Server.corsOrigin env (Some (Server.normalizeUrl (Server.CLIENT_URL env)))
     = Server.Allow
  /\ (Server.NODE_ENV env = None ->
      forall origin, Server.corsOrigin env origin = Server.Allow)
  /\ (forall origin,
        Server.nodeEnv env <> u16 "development" ->
        origin <> [] ->
        origin ∉ Server.allowedOrigins env ->
        Server.corsOrigin env (Some origin)
        = Server.Refuse {| err_message := u16 "Not allowed by CORS";
                           err_code := None |}).
Proof.
  unfold Server.corsOrigin. split; [|split; [|split]].
  - by destruct (bool_decide (Server.nodeEnv env = _)).
  - destruct (bool_decide (Server.nodeEnv env = _)); [done|].
    destruct (Server.normalizeUrl (Server.CLIENT_URL env)) as [|c s] eqn:E;
      [done|].
    cbn [env_missing str_falsy orb env_get default].
    rewrite bool_decide_eq_true_2; [done|].
    unfold Server.allowedOrigins, Server.clientUrl. rewrite E. cbn [or_else].
    set_solver.
  - intros Hunset origin. unfold Server.nodeEnv. rewrite Hunset. cbn [or_else].
    by rewrite bool_decide_eq_true_2.
  - intros origin Hprod Hne Hout.
    rewrite (bool_decide_eq_false_2 (Server.nodeEnv env = _)) by done.
    cbn [env_get default]. rewrite (bool_decide_eq_false_2 (origin ∈ _)) by done.
    by destruct origin.
Qed.

End ServerProperties.

(** ** The further properties at sample data *)

Section MoreSamples.

Local Open Scope Z_scope.

Ltac evaluate := vm_compute; first [reflexivity | exact I | done].

Ltac all_hold := repeat (apply Forall_cons_2; [cbv beta; first [lia | reflexivity]|]);
                 apply Forall_nil_2.

Lemma sweep_entries_witness :
  [30; 40; 50] <> []
  /\ [30; 40; 50] = recent 3600020 3600000 full_ledger (u16 "203.0.113.7")
  /\ Forall (fun t => 3600020 - t < 3600000) [30; 40; 50].
Proof.
  apply (proj1 (sweep_entries 3600020 full_ledger (u16 "203.0.113.7"))).
  evaluate.
Defined.

Lemma validateEmail_ignores_padding_witness :
  validateEmail (JStr (u16 "  " ++ u16 "a@b.co" ++ u16 " "))
  = validateEmail (JStr (u16 "a@b.co")).
Proof. apply validateEmail_ignores_padding; all_hold. Defined.

Lemma accepted_address_witness :
  count_occ N.eq_dec (toLowerCase (trim (u16 " Al@Example.com "))) 64%N = 1%nat
  /\ Forall (fun c => isWhiteSpace c = false)
       (toLowerCase (trim (u16 " Al@Example.com ")))
  /\ (5 <= length (toLowerCase (trim (u16 " Al@Example.com "))) <= 254)%nat.
Proof. apply accepted_address. evaluate. Defined.

Lemma escapeHtml_read_back_witness :
  unescapeHtml (escapeHtml (u16 "a<b & c")) = u16 "a<b & c"
  /\ u16 "a<b & c" = u16 "a<b & c".
Proof.
  split.
  - exact (proj1 (escapeHtml_read_back (u16 "a<b & c"))).
  - apply (proj2 (escapeHtml_read_back (u16 "a<b & c")) (u16 "a<b & c")).
    reflexivity.
Defined.

Lemma limited_request_keeps_state_witness :
  final (handler sample_env valid_request early_world full_state) = full_state
  /\ dispatched (handler sample_env valid_request early_world full_state) = None
  /\ (5 <= length (recent (now early_world) 3600000 (rateLimitMap full_state)
                     (clientIP valid_request)))%nat.
Proof. apply limited_request_keeps_state. evaluate. Defined.

Lemma error_detail_only_in_development_witness :
  error (response (handler sample_env valid_request (sample_world refused)
                     fresh_state)) = None.
Proof. apply error_detail_only_in_development. discriminate. Defined.

Lemma success_exactly_when_sent_witness :
  status (response (handler sample_env valid_request (sample_world delivered)
                      fresh_state)) = 200.
Proof.
  apply success_exactly_when_sent. split; [|split].
  - repeat split; evaluate.
  - split; evaluate.
  - exists 1000. split; [reflexivity|].
    split; [unfold SEND_TIMEOUT_MS; lia | reflexivity].
Defined.

Lemma valid_request_dispatched :
  dispatched (handler sample_env valid_request (sample_world delivered) fresh_state)
  = Some (buildMail sample_env (sample_world delivered)
            (extract (req_body valid_request))).
Proof. evaluate. Qed.

Lemma dispatched_headers_witness :
  validateEmail
    (JStr (mail_replyTo (buildMail sample_env (sample_world delivered)
                           (extract (req_body valid_request))))) = true
  /\ mail_from (buildMail sample_env (sample_world delivered)
                  (extract (req_body valid_request)))
     = env_get (GMAIL_EMAIL sample_env).
Proof.
  pose proof (dispatched_headers sample_env valid_request (sample_world delivered)
                fresh_state _ valid_request_dispatched)
    as (Hfrom & _ & _ & _ & Hreply & _).
  split; [exact Hreply | exact Hfrom].
Defined.

Lemma getTransporter_caches_witness :
  getTransporter sample_env fresh_state
  = (inr {| auth_user := u16 "owner@gmail.com"; auth_pass := u16 "app-password" |},
     {| rateLimitMap := ∅;
        transporter := Some {| auth_user := u16 "owner@gmail.com";
                               auth_pass := u16 "app-password" |} |})
  /\ getTransporter unconfigured_env
       {| rateLimitMap := ∅;
          transporter := Some {| auth_user := u16 "owner@gmail.com";
                                 auth_pass := u16 "app-password" |} |}
     = (inr {| auth_user := u16 "owner@gmail.com";
               auth_pass := u16 "app-password" |},
        {| rateLimitMap := ∅;
           transporter := Some {| auth_user := u16 "owner@gmail.com";
                                  auth_pass := u16 "app-password" |} |}).
Proof.
  assert (E : getTransporter sample_env fresh_state
              = (inr {| auth_user := u16 "owner@gmail.com";
                        auth_pass := u16 "app-password" |},
                 {| rateLimitMap := ∅;
                    transporter := Some {| auth_user := u16 "owner@gmail.com";
                                           auth_pass := u16 "app-password" |} |}))
    by (vm_compute; reflexivity).
  split; [exact E|].
  exact (proj2 (proj2 (getTransporter_caches _ _ _ _ E)) unconfigured_env).
Defined.

Lemma at_most_five_dispatched_per_hour_witness :
  (dispatched_for (clientIP valid_request) seven_requests
     (fst (serve sample_env seven_requests fresh_state)) <= 5)%nat.
Proof.
  apply (at_most_five_dispatched_per_hour 1700000000000).
  unfold seven_requests. cbn [map].
  repeat (apply Forall_cons_2; [cbn; lia|]). apply Forall_nil_2.
Defined.

Lemma sendgrid_failed_send_answers_503_witness :
  status (SendGrid.response
            (SendGrid.handler sendgrid_env valid_request
               (sample_world never_settles) ∅)) = 503
  /\ success (SendGrid.response
                (SendGrid.handler sendgrid_env valid_request
                   (sample_world never_settles) ∅)) = false
  /\ message (SendGrid.response
                (SendGrid.handler sendgrid_env valid_request
                   (sample_world never_settles) ∅))
     = u16 "Email service temporarily unavailable.".
Proof.
  apply sendgrid_failed_send_answers_503.
  - eexists. evaluate.
  - intros (t & E & _). discriminate E.
Defined.

Lemma sendgrid_dispatch_only_within_bounds_witness :
  in_bounds (SendGrid.extract (req_body valid_request))
  /\ status (SendGrid.response
               (SendGrid.handler sendgrid_env short_message_request
                  (sample_world delivered) ∅)) = 400.
Proof.
  split.
  - apply (proj1 (sendgrid_dispatch_only_within_bounds sendgrid_env valid_request
                    (sample_world delivered) ∅)).
    eexists. evaluate.
  - apply (proj2 (sendgrid_dispatch_only_within_bounds sendgrid_env
                    short_message_request (sample_world delivered) ∅)).
    intros (_ & _ & Hlen & _). vm_compute in Hlen. lia.
Defined.

Lemma normalizeUrl_trailing_slash_witness :
  Server.normalizeUrl (Some (u16 "https://example.com")) = u16 "https://example.com"
  /\ Server.normalizeUrl (Some (u16 "https://example.com" ++ u16 "/"))
     = u16 "https://example.com".
Proof. apply normalizeUrl_trailing_slash. evaluate. Defined.

Lemma cors_policy_witness :
  Server.corsOrigin production_server (Some (u16 "https://evil.example"))
  = Server.Refuse {| err_message := u16 "Not allowed by CORS"; err_code := None |}.
Proof.
  apply (proj2 (proj2 (proj2 (cors_policy production_server)))).
  - evaluate.
  - discriminate.
  - unfold Server.allowedOrigins. rewrite !not_elem_of_cons.
    repeat split; try (intros E; vm_compute in E; discriminate E).
    apply not_elem_of_nil.
Defined.

(** The seven requests of the sample: five are sent, two are limited. *)
Example seven_requests_statuses :
  map (fun r => status (response r))
    (fst (serve sample_env seven_requests fresh_state))
  = [200; 200; 200; 200; 200; 429; 429].
Proof. evaluate. Qed.

(** The two spellings of the client URL give one allowed origin. *)
Example production_client_allowed :
  Server.corsOrigin production_server (Some (u16 "https://example.com"))
  = Server.Allow
  /\ Server.corsOrigin production_server (Some (u16 "https://example.com/"))
     <> Server.Allow.
Proof. split; evaluate. Qed.

End MoreSamples.
